(** * NodeServer: the Gemini relay handlers and their rate limiter

    A shallow embedding of [src/api/gemini.js] (the routed handler),
    [src/api/gemini/stream.js] and [src/api/gemini/index.js] (the
    per-route handlers), followed by the properties of the relay engine
    and of the sliding-window limiter.

    Conventions of the embedding:
    - a JavaScript string is the list of its UTF-16 code units;
    - a JavaScript value is a term of [JSValue];
    - [Date.now()] is an integer number of milliseconds, a [Z];
    - a handler is a function from what the environment supplies (the
      request, the clock, the upstream response, the schedule of stream and
      timer events) to the ordered list of effects it performs on the
      response object, the timer and the network. *)

From Stdlib Require Import Ascii String DecimalString.
From Stdlib Require Import List ZArith NArith Bool Lia Sorted Floats.
Import ListNotations.

Set Implicit Arguments.

(* ================================================================== *)
(** ** JavaScript strings *)
(* ================================================================== *)

Module JS.

Abbreviation codeunit := N (only parsing).
Abbreviation jsstring := (list N) (only parsing).

(** A literal of the source, written as a Rocq string. *)
Definition lit (s : string) : jsstring :=
  map N_of_ascii (list_ascii_of_string s).

Definition LF : codeunit := 10%N.
Definition CR : codeunit := 13%N.

(** What [String.prototype.trim] strips: ECMAScript WhiteSpace and
    LineTerminator code points. *)
Definition isWhiteSpace (c : codeunit) : bool :=
  ((9 <=? c) && (c <=? 13) || (c =? 32) || (c =? 160) || (c =? 5760)
   || (8192 <=? c) && (c <=? 8202) || (c =? 8232) || (c =? 8233)
   || (c =? 8239) || (c =? 8287) || (c =? 12288) || (c =? 65279))%N.

Fixpoint trimStart (s : jsstring) : jsstring :=
  match s with
  | [] => []
  | c :: s' => if isWhiteSpace c then trimStart s' else s
  end.

Definition trimEnd (s : jsstring) : jsstring := rev (trimStart (rev s)).

Definition trim (s : jsstring) : jsstring := trimStart (trimEnd s).

(** [toLowerCase], on the letters A-Z.  The source only compares the
    lowered line against the prefixes [event:] and [data:]; no code unit
    outside A-Z lowers to a letter of these prefixes, so the other case
    mappings of Unicode cannot change the outcome of either test. *)
Definition lowerUnit (c : codeunit) : codeunit :=
  if ((65 <=? c) && (c <=? 90))%N then (c + 32)%N else c.

Definition toLowerCase (s : jsstring) : jsstring := map lowerUnit s.

Fixpoint startsWith (s p : jsstring) : bool :=
  match p, s with
  | [], _ => true
  | _ :: _, [] => false
  | a :: p', c :: s' => (N.eqb c a) && startsWith s' p'
  end.

(** [s.indexOf(needle)]; [None] stands for the result -1. *)
Fixpoint indexOf (s needle : jsstring) : option nat :=
  if startsWith s needle then Some 0
  else match s with
       | [] => None
       | _ :: s' => option_map S (indexOf s' needle)
       end.

(** [s.slice(0, i)] and [s.slice(i)] for an index [0 <= i]. *)
Definition sliceTo (s : jsstring) (i : nat) : jsstring := firstn i s.
Definition sliceFrom (s : jsstring) (i : nat) : jsstring := skipn i s.

Definition jsstring_eqb (a b : jsstring) : bool :=
  if list_eq_dec N.eq_dec a b then true else false.

(** [frame.split(/\r?\n/)]: the pieces between the matches of the regular
    expression, scanning left to right; a CR directly before an LF belongs
    to the match.  [cur] holds the current piece, reversed. *)
Fixpoint splitLinesFrom (cur s : jsstring) : list jsstring :=
  match s with
  | [] => [rev cur]
  | c :: s' =>
      if N.eqb c LF then rev cur :: splitLinesFrom [] s'
      else if N.eqb c CR then
        match s' with
        | d :: s'' =>
            if N.eqb d LF then rev cur :: splitLinesFrom [] s''
            else splitLinesFrom (c :: cur) s'
        | [] => splitLinesFrom (c :: cur) s'
        end
      else splitLinesFrom (c :: cur) s'
  end.

Definition splitLines (s : jsstring) : list jsstring := splitLinesFrom [] s.

(** *** Values *)

#[warnings="-register-all"]
Inductive JSValue : Type :=
| JUndefined
| JNull
| JBool (b : bool)
| JNumber (x : float)
| JString (s : jsstring)
| JArray (elems : list JSValue)
| JObject (props : list (jsstring * JSValue)).

Fixpoint lookup (k : jsstring) (props : list (jsstring * JSValue)) : JSValue :=
  match props with
  | [] => JUndefined
  | (k', v) :: rest => if jsstring_eqb k k' then v else lookup k rest
  end.

(** [v?.name] for the property names this program reads ([candidates],
    [content], [parts], [text], [error], [message]): none of them exists on
    a prototype, so only an object with that own property answers. *)
Definition getProp (v : JSValue) (name : string) : JSValue :=
  match v with
  | JObject props => lookup (lit name) props
  | _ => JUndefined
  end.

(** [v?.[0]] *)
Definition getFirst (v : JSValue) : JSValue :=
  match v with
  | JArray (x :: _) => x
  | JString (c :: _) => JString [c]
  | JObject props => lookup (lit "0") props
  | _ => JUndefined
  end.

(** ToBoolean *)
Definition truthy (v : JSValue) : bool :=
  match v with
  | JUndefined | JNull => false
  | JBool b => b
  | JNumber x => negb (PrimFloat.eqb x 0%float || PrimFloat.is_nan x)
  | JString s => match s with [] => false | _ => true end
  | JArray _ | JObject _ => true
  end.

(** [a || b] *)
Definition jsOr (a b : JSValue) : JSValue := if truthy a then a else b.

(** The built-ins of the runtime the handlers call.  [JSON_parse] answers
    [None] where [JSON.parse] throws a SyntaxError; [ToString] is the
    conversion a template literal applies to a value that is not a string. *)
Class Builtins : Type := {
  JSON_parse : jsstring -> option JSValue;
  JSON_stringify : JSValue -> jsstring;
  ToString : JSValue -> jsstring
}.

End JS.
Import JS.

(* ================================================================== *)
(** ** The in-memory limiter of [gemini.js] *)
(* ================================================================== *)

Module Limiter.

Definition WINDOW_MS : Z := 60000.
Definition MAX_REQ : Z := 10.

(** The module-level variables [requestTimes] and [limitReached]. *)
Record State : Type := {
  requestTimes : list Z;
  limitReached : bool
}.

Definition initial : State := {| requestTimes := []; limitReached := false |}.

(** [requestTimes.filter(t => now - t < WINDOW_MS)] *)
Definition prune (now : Z) (times : list Z) : list Z :=
  filter (fun t => now - t <? WINDOW_MS)%Z times.

(** [geminiRateLimiter()] at the instant [now]: the result and the
    variables after the call. *)
Definition geminiRateLimiter (now : Z) (st : State) : bool * State :=
  let requestTimes' := prune now (requestTimes st) in
  let limitReached' := (MAX_REQ <=? Z.of_nat (length requestTimes'))%Z in
  if limitReached'
  then (false, {| requestTimes := requestTimes'; limitReached := limitReached' |})
  else (true, {| requestTimes := requestTimes' ++ [now];
                 limitReached := limitReached' |}).

(** [Math.ceil(ms / 1000)] on an integer number of milliseconds. *)
Definition ceilSeconds (ms : Z) : Z := (- ((- ms) / 1000))%Z.

(** The body of the answer of [GET /api/gemini/limit]. *)
Record LimitInfo : Type := {
  limit : Z;
  remaining : Z;
  windowMs : Z;
  secondsRemaining : Z
}.

(** The computation of the [limit] route: the body and the variables
    after it. *)
Definition limitStatus (now : Z) (st : State) : LimitInfo * State :=
  let requestTimes' := prune now (requestTimes st) in
  let reached := (MAX_REQ <=? Z.of_nat (length requestTimes'))%Z in
  let remaining := Z.max 0 (MAX_REQ - Z.of_nat (length requestTimes')) in
  let msRemaining :=
    match requestTimes' with
    | first :: _ =>
        if reached then Z.max 0 (WINDOW_MS - (now - first)) else 0%Z
    | [] => 0%Z
    end in
  ({| limit := if reached then 1%Z else 0%Z;
      remaining := remaining;
      windowMs := WINDOW_MS;
      secondsRemaining := ceilSeconds msRemaining |},
   {| requestTimes := requestTimes'; limitReached := reached |}).

(** The two uses of the variables: the check a [POST] makes and the query
    of the [limit] route, each at the instant [Date.now()] returns. *)
Inductive Call : Type :=
| Check (now : Z)
| Query (now : Z).

Definition instant (c : Call) : Z :=
  match c with Check now => now | Query now => now end.

(** One call: the variables after it, and its instant if it was admitted. *)
Definition step (st : State) (c : Call) : State * list Z :=
  match c with
  | Check now =>
      let (admitted, st') := geminiRateLimiter now st in
      (st', if admitted then [now] else [])
  | Query now => (snd (limitStatus now st), [])
  end.

(** A sequence of calls: the variables after it and the instants of the
    admitted checks, in order. *)
Fixpoint run (st : State) (calls : list Call) : State * list Z :=
  match calls with
  | [] => (st, [])
  | c :: rest =>
      let (st1, a) := step st c in
      let (st2, more) := run st1 rest in
      (st2, a ++ more)
  end.

(** The clock does not run backwards between calls. *)
Definition inOrder (calls : list Call) : Prop :=
  StronglySorted Z.le (map instant calls).

(** The instants of [times] in the window of [WINDOW_MS] starting at [w]. *)
Definition within (w : Z) (times : list Z) : list Z :=
  filter (fun t => (w <=? t) && (t <? w + WINDOW_MS))%Z times.

End Limiter.

(* ================================================================== *)
(** ** The reassembly and extraction pipeline

    [emitTextsFromObj] and [handleText] occur four times in the source
    (twice in [gemini.js], once in [gemini/stream.js], once in the silent
    variant of the stream handler); the copies differ in nothing but the
    sink the texts go to.  They are embedded once, returning the texts in
    the order the sink receives them. *)
(* ================================================================== *)

Module Pipeline.
Section WithBuiltins.
Context {builtins : Builtins}.

Definition isEmpty (s : jsstring) : bool :=
  match s with [] => true | _ :: _ => false end.

(** The lines of a text: its pieces between line feeds, the last one
    being what follows the last line feed. *)
Fixpoint lines (s : jsstring) : list jsstring :=
  match s with
  | [] => [[]]
  | c :: s' =>
      if N.eqb c LF then [] :: lines s'
      else match lines s' with
           | l :: ls => (c :: l) :: ls
           | [] => [[c]]
           end
  end.


(** A piece in front of the first of some lines. *)
Definition prepend (p : jsstring) (ls : list jsstring) : list jsstring :=
  match ls with
  | l :: rest => (p ++ l) :: rest
  | [] => [p]
  end.

(** The inner loop of [emitTextsFromObj] over [parts]. *)
Definition partTexts (parts : list JSValue) : list jsstring :=
  flat_map (fun p =>
              match getProp p "text" with
              | JString t => if isEmpty t then [] else [t]
              | _ => []
              end) parts.

(** [emitTextsFromObj(obj)]: the texts [t] it hands to the sink. *)
Definition emitTextsFromObj (obj : JSValue) : list jsstring :=
  match getProp obj "candidates" with
  | JArray candidates =>
      flat_map (fun c =>
                  match getProp (getProp c "content") "parts" with
                  | JArray parts => partTexts parts
                  | _ => []
                  end) candidates
  | _ => []
  end.

(** The body both loops of [handleText] run on a raw line. *)
Definition handleLine (rawLine : jsstring) : list jsstring :=
  let line := trim rawLine in
  if isEmpty line || startsWith line (lit ":")
     || startsWith (toLowerCase line) (lit "event:")
  then []
  else
    let line := if startsWith (toLowerCase line) (lit "data:")
                then trim (sliceFrom line 5) else line in
    if isEmpty line then []
    else match JSON_parse line with
         | Some obj => emitTextsFromObj obj
         | None => []
         end.

(** The [for] loop over [frame.split(/\r?\n/)]. *)
Definition handleFrame (frame : jsstring) : list jsstring :=
  flat_map handleLine (splitLines frame).

(** What one iteration of a loop of [handleText] cut from the buffer. *)
Inductive Scan : Type :=
| PrimaryFrame (frame : jsstring)
| FallbackLine (line0 : jsstring).

(** An iteration: the span it cut and the texts it emitted. *)
Definition Entry : Type := (Scan * list jsstring)%type.

Definition span (e : Entry) : jsstring :=
  match fst e with PrimaryFrame f => f | FallbackLine l => l end.

Definition isFallback (e : Entry) : bool :=
  match fst e with FallbackLine _ => true | PrimaryFrame _ => false end.

Definition texts (log : list Entry) : list jsstring := flat_map snd log.

(** The lines of the text an iteration consumed: those of the frame and
    the empty line between its two line feeds, or the line itself. *)
Definition consumed (e : Entry) : list jsstring :=
  match fst e with
  | PrimaryFrame f => lines f ++ [[]]
  | FallbackLine l => [l]
  end.

Definition primaryOnly (log : list Entry) : Prop :=
  Forall (fun e => isFallback e = false) log.

Definition fallbackOnly (log : list Entry) : Prop :=
  Forall (fun e => isFallback e = true) log.

(** [while ((frameIdx = buffer.indexOf('\n\n')) !== -1) ...]; every
    iteration shortens the buffer, so [length buffer] iterations are
    enough ([primaryLoop_spec]). *)
Fixpoint primaryLoop (fuel : nat) (buffer : jsstring) : jsstring * list Entry :=
  match fuel with
  | O => (buffer, [])
  | S fuel' =>
      match indexOf buffer [LF; LF] with
      | Some frameIdx =>
          let frame := sliceTo buffer frameIdx in
          let buffer := sliceFrom buffer (frameIdx + 2) in
          let (buffer', log) := primaryLoop fuel' buffer in
          (buffer', (PrimaryFrame frame, handleFrame frame) :: log)
      | None => (buffer, [])
      end
  end.

(** [while ((idx = buffer.indexOf('\n')) !== -1) ...] *)
Fixpoint fallbackLoop (fuel : nat) (buffer : jsstring) : jsstring * list Entry :=
  match fuel with
  | O => (buffer, [])
  | S fuel' =>
      match indexOf buffer [LF] with
      | Some idx =>
          let line0 := sliceTo buffer idx in
          let buffer := sliceFrom buffer (idx + 1) in
          let (buffer', log) := fallbackLoop fuel' buffer in
          (buffer', (FallbackLine line0, handleLine line0) :: log)
      | None => (buffer, [])
      end
  end.

(** [handleText(textChunk)] on the closure variable [buffer]: the buffer
    after the call and what the two loops did, in order. *)
Definition handleText (buffer textChunk : jsstring) : jsstring * list Entry :=
  let buffer := buffer ++ textChunk in
  let (buffer, log1) := primaryLoop (length buffer) buffer in
  let (buffer, log2) := fallbackLoop (length buffer) buffer in
  (buffer, log1 ++ log2).

(** [if (buffer.trim()) handleText('\n')], the statement every adapter
    branch runs when the upstream ends. *)
Definition flushAtEnd (buffer : jsstring) : jsstring * option (list Entry) :=
  if isEmpty (trim buffer) then (buffer, None)
  else let (buffer', log) := handleText buffer [LF] in (buffer', Some log).

(** The reassembler driven over the chunks of one upstream body: the log
    of each [handleText] call made while chunks arrive, then the log of
    the call made at the end of the stream, if it is made. *)
Fixpoint feed (buffer : jsstring) (chunks : list jsstring)
  : jsstring * list (list Entry) :=
  match chunks with
  | [] => (buffer, [])
  | c :: rest =>
      let (buffer1, log) := handleText buffer c in
      let (buffer2, logs) := feed buffer1 rest in
      (buffer2, log :: logs)
  end.

Record Run : Type := {
  whileStreaming : list (list Entry);
  atEnd : option (list Entry);
  leftover : jsstring
}.

Definition reassemble (chunks : list jsstring) : Run :=
  let (buffer, logs) := feed [] chunks in
  let (buffer', final) := flushAtEnd buffer in
  {| whileStreaming := logs; atEnd := final; leftover := buffer' |}.

Definition runEntries (r : Run) : list Entry :=
  concat (whileStreaming r) ++ match atEnd r with Some l => l | None => [] end.

(** The frames of a run: the spans cut from the buffer, in order. *)
Definition frames (r : Run) : list jsstring := map span (runEntries r).

(** The spans cut by the primary loop alone. *)
Definition primaryFrames (r : Run) : list jsstring :=
  map span (filter (fun e => negb (isFallback e)) (runEntries r)).

(** The fragments of a run: the texts handed to the sink, in order. *)
Definition fragments (r : Run) : list jsstring := texts (runEntries r).

(** *** The vocabulary of the extractor's contract *)











End WithBuiltins.
End Pipeline.

(* ================================================================== *)
(** ** Effects, requests and the upstream *)
(* ================================================================== *)

Module Http.

(** The argument of [res.json]. *)
Inductive Body : Type :=
| ErrorBody (error : JSValue)
| TextBody (text : JSValue)
| LimitBody (info : Limiter.LimitInfo).

Inductive Endpoint : Type := GenerateContent | StreamGenerateContent.

(** The calls a handler makes on the response object, on the heartbeat
    timer and on the network, in the order it makes them.  A call on the
    response is recorded whether or not the runtime still accepts it; the
    console is not recorded. *)
Inductive Effect : Type :=
| SetHeader (name value : string)
| FlushHeaders
| Status (code : Z)
| Json (body : Body)
| Write (chunk : jsstring)
| End
| SetInterval
| ClearInterval
| Fetch (endpoint : Endpoint) (model : JSValue) (text : jsstring).

(** The outcome of an awaited call. *)
Inductive Result (A : Type) : Type :=
| Ok (a : A)
| Throws (message : JSValue).
Arguments Throws {A} message.

(** What the shape tests of a handler see of [upstream.body]. *)
Record UpstreamBody : Type := {
  hasGetReader : bool;
  hasOn : bool;
  hasAsyncIterator : bool
}.

Record Upstream : Type := {
  status : Z;
  statusText : jsstring;
  body : option UpstreamBody;
  jsonResult : Result JSValue;
  textResult : Result jsstring
}.

(** [upstream.ok] of the Fetch API: the status is in the range 200-299. *)
Definition ok (r : Upstream) : bool :=
  ((200 <=? status r) && (status r <=? 299))%Z.

(** What happens on the upstream body and on the timer once the relay is
    set up, in order of occurrence. *)
Inductive StreamEvent : Type :=
| Chunk (text : jsstring)
| EndOfStream
| StreamError (message : JSValue)
| Tick.

Record Request : Type := {
  method : string;
  subpath : string;
  prompt : JSValue;
  model : JSValue
}.

(** What the environment supplies to one exchange. *)
Record Env : Type := {
  apiKey : jsstring;
  now : Z;
  hasFlushHeaders : bool;
  fetchResult : Result Upstream;
  ticksWhileAwaiting : nat;
  events : list StreamEvent
}.

Definition sendsHeaders (e : Effect) : bool :=
  match e with
  | FlushHeaders | Json _ | Write _ | End => true
  | _ => false
  end.

(** [res.headersSent] after the calls of [trace]. *)
Definition headersSent (trace : list Effect) : bool := existsb sendsHeaders trace.

Definition cors : list Effect :=
  [ SetHeader "Access-Control-Allow-Origin" "*";
    SetHeader "Access-Control-Allow-Methods" "GET,POST,OPTIONS";
    SetHeader "Access-Control-Allow-Headers" "Content-Type, Authorization";
    SetHeader "Access-Control-Max-Age" "86400" ].

Definition sseHeaders (flush : bool) : list Effect :=
  [ SetHeader "Content-Type" "text/event-stream";
    SetHeader "Cache-Control" "no-cache, no-transform";
    SetHeader "Connection" "keep-alive";
    SetHeader "Access-Control-Allow-Origin" "*" ]
  ++ (if flush then [FlushHeaders] else []).

Definition INPUT_TOKEN_LIMIT : Z := 50000.
Definition APPROX_CHARS_PER_TOKEN : Z := 4.

(** [s.length > maxChars] *)
Definition tooLong (maxChars : Z) (s : jsstring) : bool :=
  (maxChars <? Z.of_nat (length s))%Z.

(** The prompt when it passes [!prompt || typeof prompt !== 'string']. *)
Definition validPrompt (prompt : JSValue) : option jsstring :=
  match prompt with
  | JString (c :: s) => Some (c :: s)
  | _ => None
  end.

Definition str (s : string) : JSValue := JString (lit s).

Definition quote : codeunit := 34%N.

Inductive Shape : Type := PullReader | PushEmitter | AsyncSequence | UnknownShape.

(** The chain of tests on [bodyStream]. *)
Definition shapeOf (b : UpstreamBody) : Shape :=
  if hasGetReader b then PullReader
  else if hasOn b then PushEmitter
  else if hasAsyncIterator b then AsyncSequence
  else UnknownShape.

Section WithBuiltins.
Context {builtins : Builtins}.

(** [j?.error?.message || JSON.stringify(j)], or the text of the body, or
    the empty string. *)
Definition errorDetail (r : Upstream) : JSValue :=
  match jsonResult r with
  | Ok j => jsOr (getProp (getProp j "error") "message")
                 (JString (JSON_stringify j))
  | Throws _ =>
      match textResult r with
      | Ok t => JString t
      | Throws _ => JString []
      end
  end.

(** [data?.candidates?.[0]?.content?.parts?.[0]?.text || ''] *)
Definition firstText (data : JSValue) : JSValue :=
  jsOr (getProp (getFirst (getProp (getProp (getFirst
          (getProp data "candidates")) "content") "parts")) "text")
       (JString []).

Definition ping : Effect := Write (lit ": ping" ++ [LF; LF]).

Definition dataEvent (t : jsstring) : Effect :=
  Write (lit "data: " ++ JSON_stringify (JString t) ++ [LF; LF]).

(** [flushDone()] *)
Definition flushDone : list Effect :=
  [ ClearInterval;
    Write (lit "event: done" ++ [LF]);
    Write (lit "data: " ++ quote :: lit "[DONE]" ++ quote :: [LF; LF]);
    End ].

(** The write of an [event: error] frame for the error [message]. *)
Definition errorFrame (message : JSValue) : Effect :=
  Write (lit "event: error" ++ LF :: lit "data: "
         ++ JSON_stringify (jsOr message (str "stream error")) ++ [LF; LF]).

(** The state of a relay between two events: the closure variable
    [buffer], whether the interval [hb] is still scheduled, and whether
    the code that consumes the body is still attached to it. *)
Record Session : Type := {
  buffer : jsstring;
  heartbeat : bool;
  attached : bool
}.

Definition emitted (log : list Pipeline.Entry) : list Effect :=
  map dataEvent (Pipeline.texts log).

Definition clears (out : list Effect) : bool :=
  existsb (fun e => match e with ClearInterval => true | _ => false end) out.

(** One event.  [onError] is what the error path of the handler does.  A
    pull loop or an iteration stops consuming at its first end or error;
    the listeners of an emitter stay registered.  The interval fires as
    long as no [clearInterval(hb)] has run. *)
Definition relayStep (onError : JSValue -> list Effect) (shape : Shape)
    (s : Session) (ev : StreamEvent) : Session * list Effect :=
  let stays := match shape with PushEmitter => true | _ => false end in
  match ev with
  | Tick => (s, if heartbeat s then [ping] else [])
  | Chunk text =>
      if attached s then
        let (buffer', log) := Pipeline.handleText (buffer s) text in
        ({| buffer := buffer'; heartbeat := heartbeat s; attached := true |},
         emitted log)
      else (s, [])
  | EndOfStream =>
      if attached s then
        let (buffer', final) := Pipeline.flushAtEnd (buffer s) in
        let out := match final with Some log => emitted log | None => [] end
                   ++ flushDone in
        ({| buffer := buffer'; heartbeat := heartbeat s && negb (clears out);
            attached := stays |}, out)
      else (s, [])
  | StreamError message =>
      if attached s then
        let out := onError message in
        ({| buffer := buffer s; heartbeat := heartbeat s && negb (clears out);
            attached := stays |}, out)
      else (s, [])
  end.

Fixpoint relay (onError : JSValue -> list Effect) (shape : Shape)
    (s : Session) (evs : list StreamEvent) : list Effect :=
  match evs with
  | [] => []
  | ev :: rest =>
      let (s', out) := relayStep onError shape s ev in
      out ++ relay onError shape s' rest
  end.

(** The session after the events. *)
Fixpoint relayState (onError : JSValue -> list Effect) (shape : Shape)
    (s : Session) (evs : list StreamEvent) : Session :=
  match evs with
  | [] => s
  | ev :: rest =>
      relayState onError shape (fst (relayStep onError shape s ev)) rest
  end.

End WithBuiltins.

(** Events on which the upstream is still delivering. *)
Definition delivering (ev : StreamEvent) : bool :=
  match ev with
  | Chunk _ | Tick => true
  | EndOfStream | StreamError _ => false
  end.

Definition isTick (ev : StreamEvent) : bool :=
  match ev with Tick => true | _ => false end.

Definition isWrite (e : Effect) : bool :=
  match e with Write _ => true | _ => false end.

Definition isEnd (e : Effect) : bool :=
  match e with End => true | _ => false end.

Definition isClear (e : Effect) : bool :=
  match e with ClearInterval => true | _ => false end.

(** How often the effects satisfy a test. *)
Definition count (test : Effect -> bool) (trace : list Effect) : nat :=
  length (filter test trace).

(** The shape of a closing sequence: the interval is cleared, frames are
    written, the response is ended. *)
Definition closing (out : list Effect) : Prop :=
  exists ws, Forall (fun e => isWrite e = true) ws /\
             out = ClearInterval :: ws ++ [End].

(** What the trace does after its first [End]. *)
Fixpoint afterEnd (trace : list Effect) : list Effect :=
  match trace with
  | [] => []
  | End :: rest => rest
  | _ :: rest => afterEnd rest
  end.

End Http.

(* ================================================================== *)
(** ** [src/api/gemini.js]: the routed handler *)
(* ================================================================== *)

Module GeminiJs.
Import Http.
Section WithBuiltins.
Context {builtins : Builtins}.

(** [Math.max(0, Math.floor(INPUT_TOKEN_LIMIT * APPROX_CHARS_PER_TOKEN))] *)
Definition maxChars : Z := Z.max 0 (INPUT_TOKEN_LIMIT * APPROX_CHARS_PER_TOKEN).

(** [opts.model || 'gemini-1.5-flash'] *)
Definition defaultModel (model : JSValue) : JSValue :=
  jsOr model (str "gemini-1.5-flash").

Definition missingKey : JSValue :=
  str "Missing Gemini API key. Set GEMINI_API_KEY or GOOGLE_GEMINI_API_KEY in environment".

Definition showStatus (code : Z) : jsstring :=
  lit (DecimalString.NilZero.string_of_int (Z.to_int code)).

(** [${detail}] in a template literal. *)
Definition showDetail (detail : JSValue) : jsstring :=
  match detail with
  | JString s => s
  | other => ToString other
  end.

(** The message of the error thrown for a response that is not usable. *)
Definition upstreamMessage (label : string) (r : Upstream) : JSValue :=
  let detail := errorDetail r in
  JString (lit label ++ showStatus (status r) ++ lit " " ++ statusText r
           ++ (if truthy detail then lit ": " ++ showDetail detail else [])).

(** The pings the interval writes while the handler awaits the upstream,
    when the interval is already scheduled. *)
Definition pings (n : nat) : list Effect := repeat ping n.

(** [generateContent(prompt, opts)]: the calls made and the text returned
    or the error thrown. *)
Definition generateContent (env : Env) (prompt : jsstring) (model : JSValue)
  : list Effect * Result JSValue :=
  if Pipeline.isEmpty (apiKey env) then ([], Throws missingKey)
  else if tooLong maxChars prompt then ([], Throws (str "Input too long, 50k tokens max"))
  else
    let call := [Fetch GenerateContent (defaultModel model) prompt] in
    match fetchResult env with
    | Throws m => (call, Throws m)
    | Ok res =>
        if negb (ok res)
        then (call, Throws (upstreamMessage "Gemini API error " res))
        else match jsonResult res with
             | Throws m => (call, Throws m)
             | Ok data => (call, Ok (firstText data))
             end
    end.

(** [streamGenerateContent(prompt, opts)].  [hb] tells whether the
    interval is scheduled while the call is awaited. *)
Definition streamGenerateContent (env : Env) (hb : bool) (prompt : jsstring)
    (model : JSValue) : list Effect * Result Upstream :=
  if Pipeline.isEmpty (apiKey env) then ([], Throws missingKey)
  else if tooLong maxChars prompt then ([], Throws (str "Input too long, 50k tokens max"))
  else
    let call := Fetch StreamGenerateContent (defaultModel model) prompt
                :: (if hb then pings (ticksWhileAwaiting env) else []) in
    match fetchResult env with
    | Throws m => (call, Throws m)
    | Ok res =>
        match ok res, body res with
        | true, Some _ => (call, Ok res)
        | _, _ => (call, Throws (upstreamMessage "Gemini streaming error " res))
        end
    end.

(** [typeof e?.message === 'string' && e.message.includes('tokens max')] *)
Definition mentionsTokensMax (message : JSValue) : bool :=
  match message with
  | JString m =>
      match indexOf m (lit "tokens max") with Some _ => true | None => false end
  | _ => false
  end.

(** The [catch (err)] blocks and the [error] listener of the stream route. *)
Definition onStreamError (message : JSValue) : list Effect :=
  [ClearInterval; errorFrame message; End].

(** The outer [catch (e)] of the stream route, after the calls of
    [before]; the interval [hb] is local to the [try] block. *)
Definition catchStream (before : list Effect) (message : JSValue) : list Effect :=
  if negb (headersSent before)
  then [Status 500; Json (ErrorBody (jsOr message (str "Gemini stream failed")))]
  else [errorFrame message; End].

(** The calls of the route [stream] up to the answer of the upstream, when
    the upstream is called with the prompt [s]. *)
Definition opening (env : Env) (req : Request) (s : jsstring) : list Effect :=
  sseHeaders (hasFlushHeaders env)
  ++ [SetInterval; Fetch StreamGenerateContent (defaultModel (model req)) s]
  ++ pings (ticksWhileAwaiting env).

(** The route [stream]. *)
Definition streamRoute (env : Env) (req : Request) : list Effect :=
  match validPrompt (prompt req) with
  | None => [Status 400; Json (ErrorBody (str "Missing prompt"))]
  | Some p =>
      let opened := sseHeaders (hasFlushHeaders env) ++ [SetInterval] in
      let (called, upstream) := streamGenerateContent env true p (model req) in
      let before := opened ++ called in
      let failed message :=
        before ++ catchStream before message
        ++ relay onStreamError UnknownShape
             {| buffer := []; heartbeat := true; attached := false |}
             (events env) in
      match upstream with
      | Throws m => failed m
      | Ok res =>
          match body res with
          | None => failed (str "No upstream body")
          | Some b =>
              match shapeOf b with
              | UnknownShape => failed (str "Unknown upstream body stream type")
              | shape =>
                  before ++ relay onStreamError shape
                    {| buffer := []; heartbeat := true; attached := true |}
                    (events env)
              end
          end
      end
  end.

(** The route of the empty subpath: text completion. *)
Definition completionRoute (env : Env) (req : Request) : list Effect :=
  match validPrompt (prompt req) with
  | None => [Status 400; Json (ErrorBody (str "Missing prompt"))]
  | Some p =>
      let (called, text) := generateContent env p (model req) in
      match text with
      | Ok t => called ++ [Status 200; Json (TextBody t)]
      | Throws m =>
          called ++ [Status (if mentionsTokensMax m then 400 else 500);
                     Json (ErrorBody (jsOr m (str "Gemini request failed")))]
      end
  end.

(** The route [silent]. *)
Definition silentRoute (env : Env) (req : Request) : list Effect :=
  match validPrompt (prompt req) with
  | None => [Status 400; End]
  | Some p =>
      let (called, text) := generateContent env p (model req) in
      match text with
      | Ok _ => called ++ [Status 204; End]
      | Throws m =>
          called ++ [Status (if mentionsTokensMax m then 400 else 500); End]
      end
  end.

(** Whether the body of the route [stream/silent] stops waiting: the pull
    loop and the iteration at the end of the stream, the promise around
    the emitter at its first [end] or [error]; [Some false] when the pull
    loop or the iteration throws first. *)
Fixpoint settles (shape : Shape) (evs : list StreamEvent) : option bool :=
  match evs with
  | [] => None
  | EndOfStream :: _ => Some true
  | StreamError _ :: _ =>
      Some (match shape with PushEmitter => true | _ => false end)
  | _ :: rest => settles shape rest
  end.

(** The route [stream/silent]: the texts go to the console. *)
Definition streamSilentRoute (env : Env) (req : Request) : list Effect :=
  match validPrompt (prompt req) with
  | None => [Status 400; End]
  | Some p =>
      let (called, upstream) := streamGenerateContent env false p (model req) in
      match upstream with
      | Throws _ => called ++ [Status 500; End]
      | Ok res =>
          match body res with
          | None => called ++ [Status 500; End]
          | Some b =>
              match shapeOf b with
              | UnknownShape =>
                  called ++ [Status 502;
                             Json (ErrorBody (str "Unknown upstream body stream type"))]
              | shape =>
                  called ++ match settles shape (events env) with
                            | Some true => [Status 204; End]
                            | Some false => [Status 500; End]
                            | None => []
                            end
              end
          end
      end
  end.

(** The route [limit]. *)
Definition limitRoute (env : Env) (st : Limiter.State)
  : list Effect * Limiter.State :=
  let (info, st') := Limiter.limitStatus (now env) st in
  ([SetHeader "Cache-Control" "no-store"; Status 200; Json (LimitBody info)], st').

(** [handler(req, res)]: the calls made, and the limiter variables after
    the exchange. *)
Definition handler (env : Env) (st : Limiter.State) (req : Request)
  : list Effect * Limiter.State :=
  if String.eqb (method req) "OPTIONS" then (cors ++ [Status 204; End], st)
  else if String.eqb (method req) "GET" && String.eqb (subpath req) "limit"
  then let (out, st') := limitRoute env st in (cors ++ out, st')
  else if negb (String.eqb (method req) "POST")
  then (cors ++ [SetHeader "Allow" "GET, POST, OPTIONS"; Status 405;
                 Json (ErrorBody (str "Method Not Allowed"))], st)
  else
    let (admitted, st') := Limiter.geminiRateLimiter (now env) st in
    if negb admitted then (cors ++ [Status 429; End], st')
    else if String.eqb (subpath req) EmptyString
    then (cors ++ completionRoute env req, st')
    else if String.eqb (subpath req) "silent"
    then (cors ++ silentRoute env req, st')
    else if String.eqb (subpath req) "stream"
    then (cors ++ streamRoute env req, st')
    else if String.eqb (subpath req) "stream/silent"
    then (cors ++ streamSilentRoute env req, st')
    else (cors ++ [Status 404; Json (ErrorBody (str "Unknown Gemini route"))], st').

End WithBuiltins.
End GeminiJs.

(* ================================================================== *)
(** ** [src/api/gemini/stream.js]: the handler of the stream route *)
(* ================================================================== *)

Module StreamJs.
Import Http.
Section WithBuiltins.
Context {builtins : Builtins}.

(** [Math.floor(INPUT_TOKEN_LIMIT * APPROX_CHARS_PER_TOKEN)] *)
Definition maxChars : Z := INPUT_TOKEN_LIMIT * APPROX_CHARS_PER_TOKEN.

(** The default of the destructuring [model = 'gemini-1.5-flash']. *)
Definition defaultModel (model : JSValue) : JSValue :=
  match model with
  | JUndefined => str "gemini-1.5-flash"
  | m => m
  end.

(** The [catch] blocks and the [error] listener of this file. *)
Definition onStreamError (_ : JSValue) : list Effect := [ClearInterval; End].

(** What follows a usable upstream response. *)
Definition stream (env : Env) (b : UpstreamBody) : list Effect :=
  let opened := sseHeaders (hasFlushHeaders env) ++ [SetInterval] in
  match shapeOf b with
  | UnknownShape =>
      opened
      ++ [Status 502; Json (ErrorBody (str "Unknown upstream body stream type"))]
      ++ relay onStreamError UnknownShape
           {| buffer := []; heartbeat := true; attached := false |} (events env)
  | shape =>
      opened ++ relay onStreamError shape
                  {| buffer := []; heartbeat := true; attached := true |}
                  (events env)
  end.

(** [handler(req, res)] *)
Definition handler (env : Env) (req : Request) : list Effect :=
  if String.eqb (method req) "OPTIONS" then cors ++ [Status 204; End]
  else if negb (String.eqb (method req) "POST")
  then cors ++ [SetHeader "Allow" "POST"; Status 405;
                Json (ErrorBody (str "Method Not Allowed"))]
  else if Pipeline.isEmpty (apiKey env)
  then cors ++ [Status 500; Json (ErrorBody (str "Missing Gemini API key"))]
  else match validPrompt (prompt req) with
  | None => cors ++ [Status 400; Json (ErrorBody (str "Missing prompt"))]
  | Some s =>
      if tooLong maxChars s
      then cors ++ [Status 400;
                    Json (ErrorBody (str "Input too long, 50k tokens max"))]
      else
        let call := [Fetch StreamGenerateContent (defaultModel (model req)) s] in
        match fetchResult env with
        | Throws m =>
            cors ++ call
            ++ [Status 500; Json (ErrorBody (jsOr m (str "Gemini stream failed")))]
        | Ok upstream =>
            match ok upstream, body upstream with
            | true, Some b => cors ++ call ++ stream env b
            | _, _ =>
                cors ++ call
                ++ [Status (status upstream);
                    Json (ErrorBody (jsOr (errorDetail upstream)
                                          (str "Gemini streaming error")))]
            end
        end
  end.

End WithBuiltins.
End StreamJs.

(* ================================================================== *)
(** ** [src/api/gemini/index.js]: the handler of text completion *)
(* ================================================================== *)

Module IndexJs.
Import Http.
Section WithBuiltins.
Context {builtins : Builtins}.

Definition maxChars : Z := INPUT_TOKEN_LIMIT * APPROX_CHARS_PER_TOKEN.

Definition defaultModel (model : JSValue) : JSValue :=
  match model with
  | JUndefined => str "gemini-1.5-flash"
  | m => m
  end.

(** [handler(req, res)] *)
Definition handler (env : Env) (req : Request) : list Effect :=
  if String.eqb (method req) "OPTIONS" then cors ++ [Status 204; End]
  else if negb (String.eqb (method req) "POST")
  then cors ++ [SetHeader "Allow" "POST"; Status 405;
                Json (ErrorBody (str "Method Not Allowed"))]
  else if Pipeline.isEmpty (apiKey env)
  then cors ++ [Status 500; Json (ErrorBody (str "Missing Gemini API key"))]
  else match validPrompt (prompt req) with
  | None => cors ++ [Status 400; Json (ErrorBody (str "Missing prompt"))]
  | Some s =>
      if tooLong maxChars s
      then cors ++ [Status 400;
                    Json (ErrorBody (str "Input too long, 50k tokens max"))]
      else
        let call := [Fetch GenerateContent (defaultModel (model req)) s] in
        match fetchResult env with
        | Throws m =>
            cors ++ call
            ++ [Status 500; Json (ErrorBody (jsOr m (str "Gemini request failed")))]
        | Ok upstream =>
            if negb (ok upstream)
            then cors ++ call
                 ++ [Status (status upstream);
                     Json (ErrorBody (jsOr (errorDetail upstream)
                                           (str "Gemini API error")))]
            else match jsonResult upstream with
                 | Throws m =>
                     cors ++ call
                     ++ [Status 500;
                         Json (ErrorBody (jsOr m (str "Gemini request failed")))]
                 | Ok data =>
                     cors ++ call ++ [Status 200; Json (TextBody (firstText data))]
                 end
        end
  end.

End WithBuiltins.
End IndexJs.

(* ================================================================== *)
(** ** A runtime for the examples

    A stand-in for the built-ins, small enough to evaluate: a line is
    accepted as JSON when it is an opening brace, a text without braces and
    a closing brace, and then denotes the response object whose only
    candidate has that text as its only part; the empty object is written
    as the two braces alone, which yields a part with an empty text.
    Strings are printed between double quotes, without escapes. *)
(* ================================================================== *)

Module Examples.
Import Http.

Definition openBrace : codeunit := 123%N.
Definition closeBrace : codeunit := 125%N.

Definition candidateWith (t : jsstring) : JSValue :=
  JObject [(lit "candidates",
            JArray [JObject [(lit "content",
              JObject [(lit "parts",
                JArray [JObject [(lit "text", JString t)]])])]])].

Definition parseBraced (s : jsstring) : option JSValue :=
  match s with
  | c :: rest =>
      match rev rest with
      | d :: inner =>
          if (N.eqb c openBrace && N.eqb d closeBrace
              && forallb (fun x => negb (N.eqb x openBrace || N.eqb x closeBrace))
                   inner)%bool
          then Some (candidateWith (rev inner))
          else None
      | [] => None
      end
  | [] => None
  end.

Definition printQuoted (v : JSValue) : jsstring :=
  match v with
  | JString s => quote :: s ++ [quote]
  | _ => lit "null"
  end.

Definition printPlain (v : JSValue) : jsstring :=
  match v with
  | JString s => s
  | _ => lit "[object Object]"
  end.

Definition runtime : Builtins :=
  {| JSON_parse := parseBraced;
     JSON_stringify := printQuoted;
     ToString := printPlain |}.

(** [data: {t}], a line carrying the fragment [t]. *)
Definition dataLine (t : string) : jsstring :=
  lit "data: " ++ openBrace :: lit t ++ [closeBrace].

Definition readerBody : UpstreamBody :=
  {| hasGetReader := true; hasOn := false; hasAsyncIterator := false |}.

Definition emitterBody : UpstreamBody :=
  {| hasGetReader := false; hasOn := true; hasAsyncIterator := false |}.

Definition opaqueBody : UpstreamBody :=
  {| hasGetReader := false; hasOn := false; hasAsyncIterator := false |}.

Definition respond (code : Z) (b : option UpstreamBody) : Upstream :=
  {| status := code; statusText := lit "status"; body := b;
     jsonResult := Throws JUndefined; textResult := Ok (lit "detail") |}.

Definition post (path : string) (p : jsstring) : Request :=
  {| method := "POST"; subpath := path; prompt := JString p;
     model := JUndefined |}.

Definition world (r : Result Upstream) (evs : list StreamEvent) : Env :=
  {| apiKey := lit "key"; now := 0; hasFlushHeaders := true;
     fetchResult := r; ticksWhileAwaiting := 0; events := evs |}.

(** An upstream that answers 200 with a body of none of the three
    shapes, and one tick of the interval after the handler is done. *)
Definition opaqueWorld : Env :=
  world (Ok (respond 200 (Some opaqueBody))) [Tick].

(** An upstream that answers 200 with a readable body, delivers one frame
    and then fails with the message [boom]. *)
Definition brokenWorld : Env :=
  world (Ok (respond 200 (Some readerBody)))
    [Chunk (dataLine "a" ++ [LF; LF]); StreamError (str "boom")].

(** An upstream that answers 503 before any streaming. *)
Definition rejectingWorld : Env :=
  world (Ok (respond 503 (Some readerBody))) [].

(** A prompt of 200001 characters. *)
Definition longPrompt : jsstring := 97%N :: repeat 97%N (N.to_nat 200000).

(** An upstream that answers 200 with the given JSON body. *)
Definition answering (data : JSValue) : Env :=
  world (Ok {| status := 200; statusText := lit "OK"; body := Some readerBody;
               jsonResult := Ok data; textResult := Throws JUndefined |}) [].

(** A response whose first part has the number 42 as its text. *)
Definition numericText : JSValue :=
  JObject [(lit "candidates",
            JArray [JObject [(lit "content",
              JObject [(lit "parts",
                JArray [JObject [(lit "text", JNumber 42%float)]])])]])].

(** Eleven checks one second apart, a query, and a check a minute after
    the first. *)
Definition burst : list Limiter.Call :=
  map (fun k => Limiter.Check (1000 * Z.of_nat k)) (seq 0 11)
  ++ [Limiter.Query 10500; Limiter.Check 60000].

(** Two frames, each one data line and a blank line. *)
Definition twoFrames : jsstring :=
  dataLine "a" ++ LF :: LF :: dataLine "b" ++ [LF; LF].

(** The same text cut inside its first delimiter. *)
Definition twoFramesCut : list jsstring :=
  [dataLine "a" ++ [LF]; LF :: dataLine "b" ++ [LF; LF]].

(** Two lines, each ended by a single line feed, one per chunk. *)
Definition twoLines : list jsstring :=
  [dataLine "a" ++ [LF]; dataLine "b" ++ [LF]].





(** The clock at [t], with no upstream. *)
Definition clockAt (t : Z) : Env :=
  {| apiKey := lit "key"; now := t; hasFlushHeaders := true;
     fetchResult := Throws JUndefined; ticksWhileAwaiting := 0; events := [] |}.

(** [GET /api/gemini/limit] *)
Definition getLimit : Request :=
  {| method := "GET"; subpath := "limit"; prompt := JUndefined;
     model := JUndefined |}.

End Examples.

(* ================================================================== *)
(** ** [src/api/gemini/silent.js]: completion without content *)
(* ================================================================== *)

Module SilentJs.
Import Http.

Definition defaultModel (model : JSValue) : JSValue :=
  match model with
  | JUndefined => str "gemini-1.5-flash"
  | m => m
  end.

(** [handler(req, res)].  The status of the upstream is not looked at,
    and [upstream.json()] is given a fallback, so that only a rejected
    [fetch] reaches the [catch]; the text goes to the console. *)
Definition handler (env : Env) (req : Request) : list Effect :=
  if String.eqb (method req) "OPTIONS" then cors ++ [Status 204; End]
  else if negb (String.eqb (method req) "POST")
  then cors ++ [SetHeader "Allow" "POST"; Status 405; End]
  else if Pipeline.isEmpty (apiKey env) then cors ++ [Status 500; End]
  else match validPrompt (prompt req) with
  | None => cors ++ [Status 400; End]
  | Some s =>
      let call := [Fetch GenerateContent (defaultModel (model req)) s] in
      match fetchResult env with
      | Throws _ => cors ++ call ++ [Status 500; End]
      | Ok _ => cors ++ call ++ [Status 204; End]
      end
  end.

End SilentJs.

(* ================================================================== *)
(** ** The handler of [stream/silent], second in [src/api/gemini/index.js] *)
(* ================================================================== *)

Module StreamSilentJs.
Import Http.

Definition maxChars : Z := INPUT_TOKEN_LIMIT * APPROX_CHARS_PER_TOKEN.

Definition defaultModel (model : JSValue) : JSValue :=
  match model with
  | JUndefined => str "gemini-1.5-flash"
  | m => m
  end.

(** [handler(req, res)].  The body is consumed whatever the status of the
    upstream; the texts go to the console.  The pull loop and the
    iteration answer when the body ends, the promise around the emitter
    at its first [end] or [error]; an exception of the pull loop or of the
    iteration reaches the [catch]. *)
Definition handler (env : Env) (req : Request) : list Effect :=
  if String.eqb (method req) "OPTIONS" then cors ++ [Status 204; End]
  else if negb (String.eqb (method req) "POST")
  then cors ++ [SetHeader "Allow" "POST"; Status 405; End]
  else if Pipeline.isEmpty (apiKey env) then cors ++ [Status 500; End]
  else match validPrompt (prompt req) with
  | None => cors ++ [Status 400; End]
  | Some s =>
      if tooLong maxChars s then cors ++ [Status 400; End]
      else
        let call := [Fetch StreamGenerateContent (defaultModel (model req)) s] in
        match fetchResult env with
        | Throws _ => cors ++ call ++ [Status 500; End]
        | Ok upstream =>
            match body upstream with
            | None => cors ++ call ++ [Status 502; End]
            | Some b =>
                match shapeOf b with
                | UnknownShape => cors ++ call ++ [Status 502; End]
                | shape =>
                    cors ++ call
                    ++ match GeminiJs.settles shape (events env) with
                       | Some true => [Status 204; End]
                       | Some false => [Status 500; End]
                       | None => []
                       end
                end
            end
        end
  end.

End StreamSilentJs.

(* ================================================================== *)
(** ** Observations on traces and texts *)
(* ================================================================== *)

Module Observe.
Import Http.

Definition isFetch (e : Effect) : bool :=
  match e with Fetch _ _ _ => true | _ => false end.

Definition isJson (e : Effect) : bool :=
  match e with Json _ => true | _ => false end.

(** The write of a heartbeat comment. *)
Definition isPing (e : Effect) : bool :=
  match e with
  | Write w => jsstring_eqb w (lit ": ping" ++ [LF; LF])
  | _ => false
  end.

(** An effect that, if it sets a status, sets one of [allowed]. *)
Definition statusIn (allowed : list Z) (e : Effect) : Prop :=
  match e with
  | Status c => In c allowed
  | _ => True
  end.

(** The calls that complete a response: [res.json] and [res.end]. *)
Definition answers (trace : list Effect) : nat :=
  count isJson trace + count isEnd trace.

(** A text with a carriage return put before each of its line feeds. *)
Fixpoint toCRLF (s : jsstring) : jsstring :=
  match s with
  | [] => []
  | c :: s' => if N.eqb c LF then CR :: LF :: toCRLF s' else c :: toCRLF s'
  end.

(** Lines with a carriage return at the end of each one but the last. *)
Fixpoint withCR (ls : list jsstring) : list jsstring :=
  match ls with
  | [] => []
  | [l] => [l]
  | l :: rest => (l ++ [CR]) :: withCR rest
  end.

Definition isCheck (c : Limiter.Call) : bool :=
  match c with Limiter.Check _ => true | Limiter.Query _ => false end.

(** The instant of the last of some calls, [d] when there is none. *)
Definition lastInstant (d : Z) (calls : list Limiter.Call) : Z :=
  last (map Limiter.instant calls) d.

End Observe.

(* ================================================================== *)
(** * Properties *)
(* ================================================================== *)

(** ** The limiter *)

Module LimiterFacts.
Import Limiter.

Lemma prune_In now times t :
  In t (prune now times) <-> In t times /\ (now - t < WINDOW_MS)%Z.
Proof.
  unfold prune. rewrite filter_In, Z.ltb_lt. tauto.
Qed.

Lemma prune_app now a b : prune now (a ++ b) = prune now a ++ prune now b.
Proof. apply filter_app. Qed.

Lemma prune_later now1 now2 times :
  (now1 <= now2)%Z -> prune now2 (prune now1 times) = prune now2 times.
Proof.
  intros Hle. induction times as [|t times IH]; simpl; [reflexivity|].
  destruct (now1 - t <? WINDOW_MS)%Z eqn:E1; simpl;
    destruct (now2 - t <? WINDOW_MS)%Z eqn:E2; rewrite ?IH; try reflexivity.
  apply Z.ltb_lt in E2. apply Z.ltb_ge in E1. lia.
Qed.

Lemma prune_length now times : length (prune now times) <= length times.
Proof. apply filter_length_le. Qed.

Lemma filter_length_mono (p q : Z -> bool) l :
  (forall t, In t l -> p t = true -> q t = true) ->
  length (filter p l) <= length (filter q l).
Proof.
  induction l as [|t l IH]; intros Himp; simpl; [lia|].
  assert (IH' : length (filter p l) <= length (filter q l)).
  { apply IH. intros u Hu. apply Himp. now right. }
  destruct (p t) eqn:Ep.
  - rewrite (Himp t (or_introl eq_refl) Ep). simpl. lia.
  - destruct (q t); simpl; lia.
Qed.

Lemma run_app st a b :
  run st (a ++ b) =
  (fst (run (fst (run st a)) b), snd (run st a) ++ snd (run (fst (run st a)) b)).
Proof.
  revert st. induction a as [|c a IH]; intros st; simpl.
  - now destruct (run st b).
  - destruct (step st c) as [st1 x]. rewrite IH.
    destruct (run st1 a) as [st2 y]. simpl. now rewrite app_assoc.
Qed.

Lemma run_snoc st calls c :
  run st (calls ++ [c]) =
  (fst (step (fst (run st calls)) c),
   snd (run st calls) ++ snd (step (fst (run st calls)) c)).
Proof.
  rewrite run_app. simpl.
  destruct (step (fst (run st calls)) c) as [st' a]. simpl.
  now rewrite app_nil_r.
Qed.

Lemma inOrder_snoc calls c :
  inOrder (calls ++ [c]) ->
  inOrder calls /\ Forall (fun d => (instant d <= instant c)%Z) calls.
Proof.
  unfold inOrder. induction calls as [|d calls IH]; simpl; intros H.
  - split; constructor.
  - apply StronglySorted_inv in H. destruct H as [Hs Hall].
    destruct (IH Hs) as [Hs' Hle]. split.
    + constructor; [exact Hs'|].
      rewrite map_app, Forall_app in Hall. tauto.
    + constructor; [|exact Hle].
      rewrite map_app, Forall_app in Hall. destruct Hall as [_ Hc].
      now inversion Hc.
Qed.

Lemma step_requestTimes st c now :
  (instant c <= now)%Z ->
  prune now (requestTimes (fst (step st c))) =
  prune now (requestTimes st ++ snd (step st c)).
Proof.
  intros Hle. destruct c as [n|n]; simpl in *.
  - unfold geminiRateLimiter.
    destruct (MAX_REQ <=? Z.of_nat (length (prune n (requestTimes st))))%Z; simpl.
    + now rewrite app_nil_r, prune_later.
    + now rewrite !prune_app, prune_later.
  - now rewrite app_nil_r, prune_later.
Qed.

(** After calls in order, the variable holds, as far as a later instant
    can tell, the admitted instants. *)
Lemma run_history calls :
  inOrder calls ->
  forall now, Forall (fun c => (instant c <= now)%Z) calls ->
  prune now (requestTimes (fst (run initial calls))) =
  prune now (snd (run initial calls)).
Proof.
  induction calls as [|c calls IH] using rev_ind; intros Hord now Hall.
  - reflexivity.
  - apply inOrder_snoc in Hord. destruct Hord as [Hord Hle].
    apply Forall_app in Hall. destruct Hall as [Hall Hc].
    inversion Hc as [|? ? Hcn _]; subst.
    rewrite run_snoc. simpl.
    rewrite step_requestTimes by exact Hcn.
    rewrite !prune_app. f_equal. now apply IH.
Qed.

Lemma step_admitted st c t : In t (snd (step st c)) -> t = instant c.
Proof.
  destruct c as [n|n]; simpl.
  - destruct (geminiRateLimiter n st) as [[|] st']; simpl; intuition.
  - intuition.
Qed.

Lemma step_kept st c t :
  In t (requestTimes (fst (step st c))) -> In t (requestTimes st) \/ t = instant c.
Proof.
  destruct c as [n|n]; simpl.
  - unfold geminiRateLimiter.
    destruct (MAX_REQ <=? Z.of_nat (length (prune n (requestTimes st))))%Z; simpl.
    + rewrite prune_In. tauto.
    + rewrite in_app_iff, prune_In. simpl. intuition.
  - rewrite prune_In. tauto.
Qed.

Lemma run_admitted_before calls now :
  Forall (fun c => (instant c <= now)%Z) calls ->
  Forall (fun t => (t <= now)%Z) (snd (run initial calls)) /\
  Forall (fun t => (t <= now)%Z) (requestTimes (fst (run initial calls))).
Proof.
  induction calls as [|c calls IH] using rev_ind; intros Hall.
  - split; constructor.
  - apply Forall_app in Hall. destruct Hall as [Hall Hc].
    inversion Hc as [|? ? Hcn _]; subst.
    destruct (IH Hall) as [IHa IHk].
    rewrite run_snoc. simpl. split.
    + apply Forall_app. split; [exact IHa|].
      apply Forall_forall. intros t Ht. apply step_admitted in Ht. lia.
    + apply Forall_forall. intros t Ht. apply step_kept in Ht.
      destruct Ht as [Ht|Ht]; [|lia].
      rewrite Forall_forall in IHk. now apply IHk.
Qed.

Lemma step_length st c :
  length (requestTimes st) <= 10 -> length (requestTimes (fst (step st c))) <= 10.
Proof.
  intros Hlen. destruct c as [n|n]; simpl.
  - unfold geminiRateLimiter.
    destruct (MAX_REQ <=? Z.of_nat (length (prune n (requestTimes st))))%Z eqn:E; simpl.
    + pose proof (prune_length n (requestTimes st)). lia.
    + apply Z.leb_gt in E. unfold MAX_REQ in E.
      rewrite length_app. simpl. lia.
  - pose proof (prune_length n (requestTimes st)). lia.
Qed.

Lemma run_length calls : length (requestTimes (fst (run initial calls))) <= 10.
Proof.
  induction calls as [|c calls IH] using rev_ind.
  - simpl. lia.
  - rewrite run_snoc. simpl. now apply step_length.
Qed.

Lemma prune_sorted now times :
  StronglySorted Z.le times -> StronglySorted Z.le (prune now times).
Proof.
  induction 1 as [|t times Hs IH Hall]; simpl; [constructor|].
  destruct (now - t <? WINDOW_MS)%Z; [|exact IH].
  constructor; [exact IH|].
  apply Forall_forall. intros u Hu. apply prune_In in Hu.
  rewrite Forall_forall in Hall. now apply Hall.
Qed.

Lemma sorted_snoc times now :
  StronglySorted Z.le times -> Forall (fun t => (t <= now)%Z) times ->
  StronglySorted Z.le (times ++ [now]).
Proof.
  induction 1 as [|t times Hs IH Hall]; intros Hle; simpl.
  - constructor; constructor.
  - inversion Hle; subst. constructor; [now apply IH|].
    apply Forall_app. split; [exact Hall|]. now constructor.
Qed.

Lemma run_sorted calls :
  inOrder calls -> StronglySorted Z.le (requestTimes (fst (run initial calls))).
Proof.
  induction calls as [|c calls IH] using rev_ind; intros Hord.
  - constructor.
  - apply inOrder_snoc in Hord. destruct Hord as [Hord Hle].
    specialize (IH Hord).
    destruct (run_admitted_before Hle) as [_ Hk].
    rewrite run_snoc. simpl.
    destruct c as [n|n]; simpl in *.
    + unfold geminiRateLimiter.
      destruct (MAX_REQ <=? Z.of_nat (length (prune n (requestTimes (fst (run initial calls))))))%Z;
        simpl.
      * now apply prune_sorted.
      * apply sorted_snoc; [now apply prune_sorted|].
        apply Forall_forall. intros t Ht. apply prune_In in Ht.
        rewrite Forall_forall in Hk. now apply Hk.
    + now apply prune_sorted.
Qed.

(** At most [MAX_REQ] admitted checks in any window of [WINDOW_MS]. *)
Lemma run_window calls :
  inOrder calls ->
  forall w, length (within w (snd (run initial calls))) <= 10.
Proof.
  induction calls as [|c calls IH] using rev_ind; intros Hord w.
  - simpl. lia.
  - apply inOrder_snoc in Hord. destruct Hord as [Hord Hle].
    specialize (IH Hord).
    rewrite run_snoc. simpl. unfold within. rewrite filter_app, length_app.
    fold (within w (snd (run initial calls))).
    destruct c as [n|n]; simpl; [|specialize (IH w); lia].
    pose proof (run_history Hord Hle) as Hhist. simpl in Hhist.
    unfold geminiRateLimiter.
    destruct (MAX_REQ <=? Z.of_nat (length (prune n (requestTimes (fst (run initial calls))))))%Z
      eqn:E; simpl; [specialize (IH w); lia|].
    destruct ((w <=? n) && (n <? w + WINDOW_MS))%Z eqn:Ein; simpl;
      [|specialize (IH w); lia].
    apply Z.leb_gt in E. unfold MAX_REQ in E. rewrite Hhist in E.
    apply andb_true_iff in Ein. destruct Ein as [_ Hn]. apply Z.ltb_lt in Hn.
    assert (length (within w (snd (run initial calls)))
            <= length (prune n (snd (run initial calls)))).
    { apply filter_length_mono. intros t _ Ht.
      apply andb_true_iff in Ht. destruct Ht as [Ht _].
      apply Z.leb_le in Ht. apply Z.ltb_lt. lia. }
    lia.
Qed.

Lemma prune_count now times t :
  (now - t < 60000)%Z ->
  count_occ Z.eq_dec (prune now times) t = count_occ Z.eq_dec times t.
Proof.
  intros Ht. unfold prune, WINDOW_MS.
  induction times as [|u times IH]; [reflexivity|].
  cbn [filter]. destruct (now - u <? 60000)%Z eqn:E.
  - cbn [count_occ]. destruct (Z.eq_dec u t); now rewrite IH.
  - cbn [count_occ]. apply Z.ltb_ge in E.
    destruct (Z.eq_dec u t); [lia|exact IH].
Qed.

Lemma prune_suffix now times :
  StronglySorted Z.le times ->
  exists expired,
    times = expired ++ prune now times /\
    Forall (fun t => (60000 <= now - t)%Z) expired.
Proof.
  unfold prune, WINDOW_MS.
  induction 1 as [|t times Hs IH Hle].
  - exists []. split; [reflexivity|constructor].
  - cbn [filter]. destruct (now - t <? 60000)%Z eqn:E.
    + exists []. split; [|constructor]. cbn [app]. f_equal.
      symmetry. apply forallb_filter_id. apply forallb_forall.
      intros u Hu. rewrite Forall_forall in Hle. specialize (Hle u Hu).
      apply Z.ltb_lt in E. apply Z.ltb_lt. lia.
    + destruct IH as [expired [Heq Hall]]. exists (t :: expired).
      split; [cbn [app]; now f_equal|].
      constructor; [apply Z.ltb_ge in E; lia|exact Hall].
Qed.

End LimiterFacts.

Module LimiterClaims.
Import Limiter LimiterFacts Http.

Lemma ceilSeconds_spec ms :
  (1000 * (ceilSeconds ms - 1) < ms <= 1000 * ceilSeconds ms)%Z.
Proof.
  unfold ceilSeconds.
  pose proof (Z.div_mod (- ms) 1000 ltac:(lia)).
  pose proof (Z.mod_pos_bound (- ms) 1000 ltac:(lia)).
  lia.
Qed.

Lemma post_is_checked {builtins : Builtins} env st req :
  method req = "POST"%string ->
  fst (geminiRateLimiter (now env) st) = false ->
  fst (GeminiJs.handler env st req) = cors ++ [Status 429; End].
Proof.
  intros Hm Hrej. unfold GeminiJs.handler. rewrite Hm. simpl.
  destruct (geminiRateLimiter (now env) st) as [admitted st']. simpl in Hrej.
  now subst admitted.
Qed.

(** C4.  [geminiRateLimiter] keeps the timestamps less than 60 s old,
    answers false and appends nothing when at least 10 are kept, and
    otherwise appends the current instant and answers true.  Hence, for
    calls made in the order of the clock from a fresh instance: no window of
    60 s holds more than 10 admitted checks; a POST arriving while 10
    admitted checks are less than 60 s old is answered 429; and a check
    made 60 s or more after the oldest kept timestamp is admitted. *)
Theorem limiter_admits_ten_per_window {builtins : Builtins}
    (calls : list Call) (Hord : inOrder calls) :
  let st := fst (run initial calls) in
  let admitted := snd (run initial calls) in
  (forall now s,
      let kept := prune now (requestTimes s) in
      (forall t, In t kept <-> In t (requestTimes s) /\ (now - t < 60000)%Z) /\
      geminiRateLimiter now s =
        if (10 <=? Z.of_nat (length kept))%Z
        then (false, {| requestTimes := kept; limitReached := true |})
        else (true, {| requestTimes := kept ++ [now]; limitReached := false |})) /\
  (forall w, length (within w admitted) <= 10) /\
  (forall env req,
      Forall (fun c => (instant c <= now env)%Z) calls ->
      10 <= length (within (now env - 59999) admitted) ->
      method req = "POST"%string ->
      fst (geminiRateLimiter (now env) st) = false /\
      fst (GeminiJs.handler env st req) = cors ++ [Status 429; End]) /\
  (forall oldest rest,
      requestTimes st = oldest :: rest ->
      Forall (fun t => (oldest <= t)%Z) rest /\
      forall now, (60000 <= now - oldest)%Z ->
                  fst (geminiRateLimiter now st) = true).
Proof.
  intros st admitted.
  assert (Hwin : forall now, Forall (fun c => (instant c <= now)%Z) calls ->
            10 <= length (within (now - 59999) admitted) ->
            fst (geminiRateLimiter now st) = false).
  { intros now Hall Hten.
    pose proof (run_history Hord Hall) as Hhist.
    fold st admitted in Hhist.
    unfold geminiRateLimiter. rewrite Hhist.
    assert (Hlen : length (within (now - 59999) admitted)
                   <= length (prune now admitted)).
    { apply filter_length_mono. intros t _ Ht.
      apply andb_true_iff in Ht. destruct Ht as [Ht _].
      apply Z.leb_le in Ht. apply Z.ltb_lt. unfold WINDOW_MS. lia. }
    destruct (MAX_REQ <=? Z.of_nat (length (prune now admitted)))%Z eqn:E;
      [reflexivity|].
    apply Z.leb_gt in E. unfold MAX_REQ in E. lia. }
  split; [|split; [|split]].
  - intros now s kept. split; [intros t; apply prune_In|].
    unfold geminiRateLimiter. fold kept. unfold MAX_REQ.
    now destruct (10 <=? Z.of_nat (length kept))%Z.
  - apply run_window, Hord.
  - intros env req Hall Hten Hpost.
    pose proof (Hwin (now env) Hall Hten) as Hrej.
    split; [exact Hrej|]. now apply post_is_checked.
  - intros oldest rest Hst. split.
    + pose proof (run_sorted Hord) as Hs. fold st in Hs. rewrite Hst in Hs.
      now inversion Hs.
    + intros now Hnow. unfold geminiRateLimiter. rewrite Hst. simpl.
      replace (now - oldest <? WINDOW_MS)%Z with false
        by (symmetry; apply Z.ltb_ge; unfold WINDOW_MS; lia).
      pose proof (run_length calls) as Hlen. fold st in Hlen.
      rewrite Hst in Hlen. simpl in Hlen.
      pose proof (prune_length now rest).
      destruct (MAX_REQ <=? Z.of_nat (length (prune now rest)))%Z eqn:E;
        [|reflexivity].
      apply Z.leb_le in E. unfold MAX_REQ in E. lia.
Qed.

Ltac in_order :=
  unfold inOrder; simpl;
  repeat (constructor; [| repeat (constructor; try lia)]); constructor.

Lemma limiter_admits_ten_per_window_witness :
  inOrder Examples.burst /\
  snd (run initial Examples.burst) =
    [0; 1000; 2000; 3000; 4000; 5000; 6000; 7000; 8000; 9000; 60000]%Z /\
  length (within 0 (snd (run initial Examples.burst))) <= 10.
Proof.
  assert (Hord : inOrder Examples.burst) by in_order.
  split; [exact Hord|]. split; [reflexivity|].
  exact (proj1 (proj2 (@limiter_admits_ten_per_window Examples.runtime Examples.burst Hord)) 0%Z).
Defined.

(** C9.  [GET limit] replaces the timestamps by those less than 60 s old
    and appends none: a timestamp is kept exactly when it was there and is
    less than 60 s old, as many times as it was there, and of a list in
    ascending order what is dropped is a prefix of expired timestamps and
    what is kept is the rest, untouched.  It answers 200 with [limit],
    [remaining], [windowMs] and [secondsRemaining]: [remaining] is
    [max(0, 10 - kept)], [limit] is 1 exactly when 10 or more are kept and
    0 otherwise, [windowMs] is 60000, and [secondsRemaining] is 0 when not
    limited and otherwise the time until the first (on an ordered list,
    the oldest) kept timestamp is 60 s old, rounded up to whole
    seconds. *)
Theorem limit_route_reports {builtins : Builtins} env st req
    (Hget : method req = "GET"%string) (Hpath : subpath req = "limit"%string) :
  let kept := prune (now env) (requestTimes st) in
  let n := Z.of_nat (length kept) in
  exists info,
    GeminiJs.handler env st req =
      (cors ++ [SetHeader "Cache-Control" "no-store"; Status 200;
                Json (LimitBody info)],
       {| requestTimes := kept; limitReached := (10 <=? n)%Z |}) /\
    (forall t, In t kept <-> In t (requestTimes st) /\ (now env - t < 60000)%Z) /\
    (forall t, (now env - t < 60000)%Z ->
               count_occ Z.eq_dec kept t
               = count_occ Z.eq_dec (requestTimes st) t) /\
    (StronglySorted Z.le (requestTimes st) ->
     exists expired,
       requestTimes st = expired ++ kept /\
       Forall (fun t => (60000 <= now env - t)%Z) expired) /\
    remaining info = Z.max 0 (10 - n) /\
    (limit info = 1%Z <-> (10 <= n)%Z) /\
    (limit info = 0%Z <-> (n < 10)%Z) /\
    windowMs info = 60000%Z /\
    ((n < 10)%Z -> secondsRemaining info = 0%Z) /\
    ((10 <= n)%Z ->
       exists oldest rest,
         kept = oldest :: rest /\
         (StronglySorted Z.le (requestTimes st) ->
          Forall (fun t => (oldest <= t)%Z) rest) /\
         let ms := (60000 - (now env - oldest))%Z in
         (0 < ms)%Z /\
         (1000 * (secondsRemaining info - 1) < ms
          <= 1000 * secondsRemaining info)%Z).
Proof.
  intros kept n.
  exists (fst (limitStatus (now env) st)).
  unfold GeminiJs.handler, GeminiJs.limitRoute. rewrite Hget, Hpath.
  change (String.eqb "GET" "OPTIONS") with false.
  change (String.eqb "GET" "GET" && String.eqb "limit" "limit") with true.
  unfold limitStatus. fold kept. fold n. unfold MAX_REQ, WINDOW_MS.
  cbv beta iota zeta.
  cbn [fst snd limit remaining windowMs secondsRemaining].
  split; [reflexivity|].
  split; [intros t; apply prune_In|].
  split; [intros t; apply prune_count|].
  split; [apply prune_suffix|].
  split; [reflexivity|].
  destruct (10 <=? n)%Z eqn:E;
    [apply Z.leb_le in E | apply Z.leb_gt in E].
  - repeat split; try lia.
    intros _. destruct kept as [|oldest rest] eqn:Hk; [simpl in n; lia|].
    exists oldest, rest. split; [reflexivity|].
    assert (Hin : In oldest (prune (now env) (requestTimes st)))
      by (fold kept; rewrite Hk; now left).
    apply prune_In in Hin. destruct Hin as [_ Hin]. unfold WINDOW_MS in Hin.
    split.
    + intros Hs. apply (prune_sorted (now env)) in Hs.
      fold kept in Hs. rewrite Hk in Hs. now inversion Hs.
    + cbv zeta. split; [lia|].
      rewrite Z.max_r by lia. apply ceilSeconds_spec.
  - repeat split; try lia; intros _; now destruct kept.
Qed.

Lemma limit_route_reports_witness :
  (exists info,
     GeminiJs.handler (builtins := Examples.runtime) (Examples.clockAt 60500)
       (fst (run initial (firstn 10 Examples.burst))) Examples.getLimit
     = (cors ++ [SetHeader "Cache-Control" "no-store"; Status 200;
                 Json (LimitBody info)],
        {| requestTimes := [1000; 2000; 3000; 4000; 5000; 6000; 7000; 8000;
                            9000]%Z;
           limitReached := false |}) /\
     limit info = 0%Z /\ remaining info = 1%Z /\
     windowMs info = 60000%Z /\ secondsRemaining info = 0%Z) /\
  (exists info,
     GeminiJs.handler (builtins := Examples.runtime) (Examples.clockAt 10500)
       (fst (run initial (firstn 10 Examples.burst))) Examples.getLimit
     = (cors ++ [SetHeader "Cache-Control" "no-store"; Status 200;
                 Json (LimitBody info)],
        {| requestTimes := [0; 1000; 2000; 3000; 4000; 5000; 6000; 7000;
                            8000; 9000]%Z;
           limitReached := true |}) /\
     limit info = 1%Z /\ remaining info = 0%Z /\
     windowMs info = 60000%Z /\ secondsRemaining info = 50%Z).
Proof.
  split.
  - destruct (@limit_route_reports Examples.runtime (Examples.clockAt 60500)
                (fst (run initial (firstn 10 Examples.burst))) Examples.getLimit
                eq_refl eq_refl)
      as [info [H [_ [_ [_ [Hrem [_ [Hzero [Hwin [Hsec _]]]]]]]]]].
    exists info. split; [exact H|].
    split; [apply Hzero; reflexivity|].
    split; [exact Hrem|]. split; [exact Hwin|].
    apply Hsec. reflexivity.
  - destruct (@limit_route_reports Examples.runtime (Examples.clockAt 10500)
                (fst (run initial (firstn 10 Examples.burst))) Examples.getLimit
                eq_refl eq_refl)
      as [info [H [_ [_ [_ [Hrem [Hone [_ [Hwin [_ Hsec]]]]]]]]]].
    exists info. split; [exact H|].
    split; [apply Hone; discriminate|].
    split; [exact Hrem|]. split; [exact Hwin|].
    destruct (Hsec ltac:(discriminate)) as [oldest [rest [Hk [_ [_ Hb]]]]].
    injection Hk as Ho _. subst oldest.
    change (1000 * (secondsRemaining info - 1) < 49500
            <= 1000 * secondsRemaining info)%Z in Hb.
    lia.
Defined.

End LimiterClaims.

(** ** Strings *)

Unset Implicit Arguments.

Module StringFacts.

Lemma trimEnd_snoc s c : isWhiteSpace c = true -> trimEnd (s ++ [c]) = trimEnd s.
Proof.
  intros Hc. unfold trimEnd. rewrite rev_app_distr. simpl. now rewrite Hc.
Qed.

Lemma trim_snoc s c : isWhiteSpace c = true -> trim (s ++ [c]) = trim s.
Proof. intros Hc. unfold trim. now rewrite trimEnd_snoc. Qed.

Lemma startsWith_split s p :
  startsWith s p = true -> s = p ++ skipn (length p) s.
Proof.
  revert s. induction p as [|a p IH]; intros s H; [reflexivity|].
  destruct s as [|c s]; simpl in H; [discriminate|].
  apply andb_true_iff in H. destruct H as [Hc Hs].
  apply N.eqb_eq in Hc. subst c. simpl. f_equal. now apply IH.
Qed.

Lemma indexOf_cons c s p :
  indexOf (c :: s) p =
  if startsWith (c :: s) p then Some 0 else option_map S (indexOf s p).
Proof. reflexivity. Qed.

Lemma indexOf_split s p i :
  indexOf s p = Some i ->
  s = firstn i s ++ p ++ skipn (i + length p) s /\ i + length p <= length s.
Proof.
  revert i. induction s as [|c s IH]; intros i H.
  - destruct p; simpl in H; [|discriminate].
    inversion H; subst. simpl. split; [reflexivity|lia].
  - rewrite indexOf_cons in H. destruct (startsWith (c :: s) p) eqn:E.
    + inversion H; subst. apply startsWith_split in E. split.
      * exact E.
      * apply (f_equal (@length _)) in E. rewrite length_app in E. lia.
    + destruct (indexOf s p) as [j|] eqn:Ej; [|discriminate].
      inversion H; subst. destruct (IH j eq_refl) as [IH1 IH2].
      simpl. split; [|lia]. f_equal. exact IH1.
Qed.

Lemma startsWith_LF c s : startsWith (c :: s) [LF] = N.eqb c LF.
Proof. simpl. destruct s; apply andb_true_r. Qed.

Lemma indexOf_LF_first s i :
  indexOf s [LF] = Some i -> ~ In LF (firstn i s).
Proof.
  revert i. induction s as [|c s IH]; intros i H; [discriminate|].
  rewrite indexOf_cons, startsWith_LF in H.
  destruct (N.eqb c LF) eqn:E.
  - inversion H; subst. simpl. tauto.
  - destruct (indexOf s [LF]) as [j|] eqn:Ej; [|discriminate].
    inversion H; subst. simpl. intros [Hc|Hin].
    + subst c. now rewrite N.eqb_refl in E.
    + now apply (IH j eq_refl).
Qed.

Lemma indexOf_LF_none s : indexOf s [LF] = None -> ~ In LF s.
Proof.
  induction s as [|c s IH]; intros H; [simpl; tauto|].
  rewrite indexOf_cons, startsWith_LF in H.
  destruct (N.eqb c LF) eqn:E; [discriminate|].
  destruct (indexOf s [LF]) as [j|] eqn:Ej; [discriminate|].
  intros [Hc|Hin].
  - subst c. now rewrite N.eqb_refl in E.
  - now apply IH.
Qed.

(** *** What [trim] takes and what it keeps *)








End StringFacts.

(** ** The pipeline *)

Module PipelineFacts.
Import Pipeline StringFacts.

Lemma lines_nonempty s : lines s <> [].
Proof.
  destruct s as [|c s]; simpl; [discriminate|].
  destruct (N.eqb c LF); [discriminate|]. now destruct (lines s).
Qed.

Lemma lines_cons_other c s :
  N.eqb c LF = false ->
  exists l ls, lines s = l :: ls /\ lines (c :: s) = (c :: l) :: ls.
Proof.
  intros E. simpl. rewrite E.
  destruct (lines s) as [|l ls] eqn:El; [now destruct (lines_nonempty s)|].
  now exists l, ls.
Qed.

Lemma lines_no_LF s : ~ In LF s -> lines s = [s].
Proof.
  induction s as [|c s IH]; intros H; [reflexivity|].
  simpl. destruct (N.eqb c LF) eqn:E.
  - apply N.eqb_eq in E. subst c. destruct H. now left.
  - rewrite IH; [reflexivity|]. intros Hin. apply H. now right.
Qed.

(** The lines of a text that goes on: all lines but the last stand, the
    last one continues. *)
Lemma lines_continue x y pre l :
  lines x = pre ++ [l] -> lines (x ++ y) = pre ++ lines (l ++ y).
Proof.
  revert pre l. induction x as [|c x IH]; intros pre l H.
  - simpl in H. destruct pre as [|p pre].
    + inversion H; subst. reflexivity.
    + inversion H. now destruct pre.
  - simpl in H. simpl app. simpl lines. destruct (N.eqb c LF) eqn:E.
    + destruct pre as [|p pre].
      * inversion H. now destruct (lines_nonempty x).
      * inversion H; subst. simpl. f_equal. now apply IH.
    + destruct (lines x) as [|l0 ls0] eqn:El; [now destruct (lines_nonempty x)|].
      destruct pre as [|p pre].
      * inversion H; subst.
        rewrite (IH [] l0 eq_refl). simpl. rewrite E.
        now destruct (lines (l0 ++ y)) eqn:El'; [destruct (lines_nonempty (l0 ++ y))|].
      * inversion H; subst.
        rewrite (IH (l0 :: pre) l); [reflexivity|].
        simpl. now f_equal.
Qed.

Lemma lines_app_LF a b : lines (a ++ LF :: b) = lines a ++ lines b.
Proof.
  destruct (exists_last (lines_nonempty a)) as [pre [l Hl]].
  rewrite (lines_continue a (LF :: b) pre l Hl), Hl, <- app_assoc. f_equal.
  assert (Hno : ~ In LF l).
  { clear - Hl. revert pre l Hl. induction a as [|c a IH]; intros pre l Hl.
    - simpl in Hl. destruct pre as [|p pre].
      + inversion Hl. tauto.
      + inversion Hl. now destruct pre.
    - simpl in Hl. destruct (N.eqb c LF) eqn:E.
      + destruct pre as [|p pre].
        * inversion Hl. now destruct (lines_nonempty a).
        * inversion Hl; subst. now apply (IH pre).
      + destruct (lines a) as [|l0 ls0] eqn:El; [now destruct (lines_nonempty a)|].
        destruct pre as [|p pre].
        * inversion Hl; subst. intros [Hc|Hin].
          -- subst c. now rewrite N.eqb_refl in E.
          -- now apply (IH [] l0).
        * inversion Hl; subst. now apply (IH (l0 :: pre)). }
  clear Hl. induction l as [|c l IH]; [reflexivity|].
  simpl app. simpl lines.
  destruct (N.eqb c LF) eqn:E.
  - apply N.eqb_eq in E. subst c. destruct Hno. now left.
  - rewrite IH by (intros Hin; apply Hno; now right). reflexivity.
Qed.

Lemma lines_split_LF a b : ~ In LF a -> lines (a ++ LF :: b) = a :: lines b.
Proof. intros H. now rewrite lines_app_LF, lines_no_LF. Qed.

(** *** The regular expression and the lines *)

Lemma prepend_nil ls : ls <> [] -> prepend [] ls = ls.
Proof. now destruct ls. Qed.

Lemma splitLinesFrom_other c cur s :
  N.eqb c LF = false ->
  (forall s', s = LF :: s' -> N.eqb c CR = false) ->
  splitLinesFrom cur (c :: s) = splitLinesFrom (c :: cur) s.
Proof.
  intros E H. simpl. rewrite E. destruct (N.eqb c CR) eqn:Ec; [|reflexivity].
  destruct s as [|d s]; [reflexivity|].
  destruct (N.eqb d LF) eqn:Ed; [|reflexivity].
  apply N.eqb_eq in Ed. subst d. discriminate (H s eq_refl).
Qed.

Lemma splitLinesFrom_lines n : forall s cur,
  length s <= n ->
  map trim (splitLinesFrom cur s) = map trim (prepend (rev cur) (lines s)).
Proof.
  induction n as [|n IH]; intros s cur Hlen.
  - destruct s; [|simpl in Hlen; lia]. simpl. now rewrite app_nil_r.
  - destruct s as [|c s]; [simpl; now rewrite app_nil_r|].
    simpl in Hlen.
    destruct (N.eqb c LF) eqn:E.
    + simpl. rewrite E. simpl. rewrite app_nil_r. f_equal.
      rewrite IH by lia. simpl. now rewrite prepend_nil by apply lines_nonempty.
    + destruct (lines_cons_other c s E) as [l [ls [Hl Hc]]].
      destruct s as [|d s].
      * simpl. rewrite E. now destruct (N.eqb c CR).
      * destruct (N.eqb d LF && N.eqb c CR) eqn:Edc.
        -- apply andb_true_iff in Edc. destruct Edc as [Ed Ec].
           simpl splitLinesFrom. rewrite E, Ec, Ed.
           apply N.eqb_eq in Ed, Ec. subst d c.
           simpl in Hlen. simpl. f_equal.
           ++ symmetry. apply trim_snoc. reflexivity.
           ++ rewrite IH by lia. simpl.
              now rewrite prepend_nil by apply lines_nonempty.
        -- rewrite splitLinesFrom_other; [|exact E|].
           ++ rewrite IH by lia. rewrite Hc, Hl. simpl.
              now rewrite <- app_assoc.
           ++ intros s' Hs'. inversion Hs'; subst.
              rewrite N.eqb_refl in Edc. simpl in Edc. exact Edc.
Qed.

Lemma splitLines_lines s : map trim (splitLines s) = map trim (lines s).
Proof.
  unfold splitLines. rewrite (splitLinesFrom_lines (length s)) by lia.
  simpl. now rewrite prepend_nil by apply lines_nonempty.
Qed.

Section WithBuiltins.
Context {builtins : Builtins}.

Lemma handleLine_trim a b : trim a = trim b -> handleLine a = handleLine b.
Proof. intros H. unfold handleLine. now rewrite H. Qed.

Lemma handleLine_map_trim a b :
  map trim a = map trim b -> flat_map handleLine a = flat_map handleLine b.
Proof.
  revert b. induction a as [|x a IH]; intros [|y b] H; try discriminate.
  - reflexivity.
  - inversion H. simpl. now rewrite (handleLine_trim x y), (IH b).
Qed.

Lemma handleLine_blank s : isEmpty (trim s) = true -> handleLine s = [].
Proof. intros H. unfold handleLine. now rewrite H. Qed.

(** A frame is handled line by line, in the order of its lines. *)
Lemma handleFrame_lines f : handleFrame f = flat_map handleLine (lines f).
Proof. apply handleLine_map_trim, splitLines_lines. Qed.

Lemma entry_texts (e : Entry) :
  snd e = match fst e with
          | PrimaryFrame f => handleFrame f
          | FallbackLine l => handleLine l
          end ->
  snd e = flat_map handleLine (consumed e).
Proof.
  unfold consumed. destruct (fst e); intros ->.
  - rewrite flat_map_app, handleFrame_lines. simpl. now rewrite app_nil_r.
  - simpl. now rewrite app_nil_r.
Qed.

Lemma primaryLoop_spec fuel : forall b,
  length b <= fuel ->
  lines b = flat_map consumed (snd (primaryLoop fuel b))
            ++ lines (fst (primaryLoop fuel b)) /\
  texts (snd (primaryLoop fuel b))
  = flat_map handleLine (flat_map consumed (snd (primaryLoop fuel b))) /\
  indexOf (fst (primaryLoop fuel b)) [LF; LF] = None /\
  primaryOnly (snd (primaryLoop fuel b)) /\
  length (fst (primaryLoop fuel b)) <= length b.
Proof.
  induction fuel as [|fuel IH]; intros b Hlen.
  - destruct b; [|simpl in Hlen; lia]. simpl. repeat split; constructor.
  - simpl. destruct (indexOf b [LF; LF]) as [i|] eqn:Ei.
    + destruct (indexOf_split _ _ _ Ei) as [Hb Hi]. simpl in Hi.
      unfold sliceTo, sliceFrom.
      assert (Hrest : length (skipn (i + 2) b) <= fuel)
        by (rewrite length_skipn; lia).
      destruct (IH _ Hrest) as [H1 [H2 [H3 [H4 H5]]]].
      destruct (primaryLoop fuel (skipn (i + 2) b)) as [b' log]. simpl in *.
      split; [|split; [|split; [|split]]].
      * rewrite Hb at 1. rewrite lines_app_LF. unfold consumed at 1. simpl.
        rewrite <- !app_assoc. simpl. now rewrite H1.
      * unfold texts in *. simpl. rewrite flat_map_app, H2. f_equal.
        now apply (entry_texts (PrimaryFrame (firstn i b), handleFrame (firstn i b))).
      * exact H3.
      * constructor; [reflexivity|exact H4].
      * rewrite length_skipn in H5. lia.
    + simpl. split; [reflexivity|]. split; [reflexivity|].
      split; [exact Ei|]. split; [constructor|lia].
Qed.

Lemma fallbackLoop_spec fuel : forall b,
  length b <= fuel ->
  lines b = flat_map consumed (snd (fallbackLoop fuel b))
            ++ [fst (fallbackLoop fuel b)] /\
  texts (snd (fallbackLoop fuel b))
  = flat_map handleLine (flat_map consumed (snd (fallbackLoop fuel b))) /\
  indexOf (fst (fallbackLoop fuel b)) [LF] = None /\
  fallbackOnly (snd (fallbackLoop fuel b)).
Proof.
  induction fuel as [|fuel IH]; intros b Hlen.
  - destruct b; [|simpl in Hlen; lia]. simpl. repeat split; constructor.
  - simpl. destruct (indexOf b [LF]) as [i|] eqn:Ei.
    + destruct (indexOf_split _ _ _ Ei) as [Hb Hi]. simpl in Hi.
      pose proof (indexOf_LF_first _ _ Ei) as Hno.
      unfold sliceTo, sliceFrom.
      assert (Hrest : length (skipn (i + 1) b) <= fuel)
        by (rewrite length_skipn; lia).
      destruct (IH _ Hrest) as [H1 [H2 [H3 H4]]].
      destruct (fallbackLoop fuel (skipn (i + 1) b)) as [b' log]. simpl in *.
      split; [|split; [|split]].
      * rewrite Hb at 1. rewrite lines_split_LF by exact Hno.
        unfold consumed at 1. simpl. now rewrite H1.
      * unfold texts in *. simpl. rewrite H2. unfold consumed at 2. simpl.
        reflexivity.
      * exact H3.
      * constructor; [reflexivity|exact H4].
    + simpl. split; [now rewrite lines_no_LF by now apply indexOf_LF_none|].
      split; [reflexivity|]. split; [exact Ei|constructor].
Qed.

Lemma texts_app a b : texts (a ++ b) = texts a ++ texts b.
Proof. apply flat_map_app. Qed.

(** One call of [handleText]: it consumes whole lines of the buffered
    text and leaves the unfinished last line; the primary loop runs
    first and leaves no blank line behind, the single-line loop takes the
    complete lines that remain. *)
Lemma handleText_spec buffer chunk :
  lines (buffer ++ chunk)
  = flat_map consumed (snd (handleText buffer chunk))
    ++ [fst (handleText buffer chunk)] /\
  texts (snd (handleText buffer chunk))
  = flat_map handleLine (flat_map consumed (snd (handleText buffer chunk))) /\
  indexOf (fst (handleText buffer chunk)) [LF] = None /\
  exists mid log1 log2,
    primaryLoop (length (buffer ++ chunk)) (buffer ++ chunk) = (mid, log1) /\
    fallbackLoop (length mid) mid = (fst (handleText buffer chunk), log2) /\
    snd (handleText buffer chunk) = log1 ++ log2 /\
    primaryOnly log1 /\ fallbackOnly log2 /\
    indexOf mid [LF; LF] = None.
Proof.
  unfold handleText.
  destruct (primaryLoop_spec (length (buffer ++ chunk)) (buffer ++ chunk) (le_n _))
    as [P1 [P2 [P3 [P4 _]]]].
  destruct (primaryLoop (length (buffer ++ chunk)) (buffer ++ chunk))
    as [mid log1] eqn:Ep. simpl in P1, P2, P3, P4.
  destruct (fallbackLoop_spec (length mid) mid (le_n _)) as [F1 [F2 [F3 F4]]].
  destruct (fallbackLoop (length mid) mid) as [b' log2] eqn:Ef.
  simpl in F1, F2, F3, F4. simpl.
  split; [|split; [|split]].
  - now rewrite P1, F1, flat_map_app, <- app_assoc.
  - now rewrite texts_app, flat_map_app, flat_map_app, P2, F2.
  - exact F3.
  - exists mid, log1, log2. repeat split; assumption.
Qed.

Lemma feed_spec chunks : forall buffer,
  lines (buffer ++ concat chunks)
  = flat_map consumed (concat (snd (feed buffer chunks)))
    ++ lines (fst (feed buffer chunks)) /\
  texts (concat (snd (feed buffer chunks)))
  = flat_map handleLine (flat_map consumed (concat (snd (feed buffer chunks)))) /\
  (indexOf buffer [LF] = None -> indexOf (fst (feed buffer chunks)) [LF] = None) /\
  length (snd (feed buffer chunks)) = length chunks.
Proof.
  induction chunks as [|c chunks IH]; intros buffer.
  - simpl. rewrite app_nil_r. split; [|split; [|split]]; try reflexivity.
    trivial.
  - simpl. destruct (handleText_spec buffer c) as [H1 [H2 [H3 _]]].
    destruct (handleText buffer c) as [b1 log]. simpl in H1, H2, H3.
    destruct (IH b1) as [I1 [I2 [I3 I4]]].
    destruct (feed b1 chunks) as [b2 logs]. simpl in I1, I2, I3, I4. simpl.
    split; [|split; [|split]].
    + rewrite app_assoc, (lines_continue _ _ _ _ H1), I1.
      now rewrite flat_map_app, <- app_assoc.
    + now rewrite texts_app, flat_map_app, flat_map_app, H2, I2.
    + intros _. now apply I3.
    + now rewrite I4.
Qed.

(** The end of the stream, on a buffer that holds no line feed (as every
    call of [handleText] leaves it): nothing is done on a blank buffer,
    and otherwise the buffer is handled as one last line, by the
    single-line loop, and nothing is left over. *)
Lemma flushAtEnd_spec buffer :
  indexOf buffer [LF] = None ->
  (snd (flushAtEnd buffer) = None <-> trim buffer = []) /\
  (trim buffer <> [] ->
   flushAtEnd buffer = ([], Some [(FallbackLine buffer, handleLine buffer)])).
Proof.
  intros Hno. unfold flushAtEnd.
  destruct (trim buffer) as [|c t] eqn:Et; simpl.
  - split; [tauto|]. intros H. now destruct H.
  - split; [|intros _].
    + destruct (handleText buffer [LF]). simpl. split; discriminate.
    + unfold handleText.
      assert (Hlen : length (buffer ++ [LF]) = S (length buffer))
        by (rewrite length_app; simpl; lia).
      assert (Hp : primaryLoop (length (buffer ++ [LF])) (buffer ++ [LF])
                   = (buffer ++ [LF], [])).
      { rewrite Hlen. simpl.
        destruct (indexOf (buffer ++ [LF]) [LF; LF]) as [i|] eqn:Ei; [|reflexivity].
        exfalso. destruct (indexOf_split _ _ _ Ei) as [Hs _].
        apply (f_equal lines) in Hs.
        rewrite lines_split_LF in Hs by now apply indexOf_LF_none.
        change ([LF; LF] ++ skipn (i + length [LF; LF]) (buffer ++ [LF]))
          with (LF :: LF :: skipn (i + 2) (buffer ++ [LF])) in Hs.
        rewrite lines_app_LF in Hs. apply (f_equal (@length _)) in Hs.
        rewrite length_app in Hs. simpl in Hs.
        pose proof (lines_nonempty (firstn i (buffer ++ [LF]))) as Hf.
        destruct (lines (firstn i (buffer ++ [LF]))); [now destruct Hf|].
        destruct (N.eqb LF LF) eqn:E; [|discriminate].
        simpl in Hs.
        pose proof (lines_nonempty (skipn (i + 2) (buffer ++ [LF]))) as Hr.
        destruct (lines (skipn (i + 2) (buffer ++ [LF]))); [now destruct Hr|].
        simpl in Hs. lia. }
      rewrite Hp, Hlen. simpl.
      assert (Hi : indexOf (buffer ++ [LF]) [LF] = Some (length buffer)).
      { clear - Hno. induction buffer as [|c b IH]; [reflexivity|].
        simpl app. rewrite indexOf_cons, startsWith_LF in *.
        destruct (N.eqb c LF); [discriminate|].
        destruct (indexOf b [LF]) eqn:Eb; [discriminate|].
        now rewrite (IH eq_refl). }
      rewrite Hi. unfold sliceTo, sliceFrom.
      rewrite firstn_app, firstn_all, Nat.sub_diag. simpl. rewrite app_nil_r.
      replace (skipn (length buffer + 1) (buffer ++ [LF])) with (@nil N).
      * now destruct (length buffer).
      * rewrite skipn_all2; [reflexivity|]. rewrite length_app. simpl. lia.
Qed.

(** The fragments of a run are those of the lines of the whole text, in
    the order of the lines, whatever the chunks. *)
Lemma reassemble_fragments chunks :
  fragments (reassemble chunks) = flat_map handleLine (lines (concat chunks)).
Proof.
  unfold fragments, runEntries, reassemble.
  destruct (feed_spec chunks []) as [H1 [H2 [H3 _]]]. simpl in H1.
  destruct (feed [] chunks) as [b logs]. simpl in H1, H2, H3.
  specialize (H3 eq_refl).
  destruct (flushAtEnd_spec b H3) as [F1 F2].
  rewrite (lines_no_LF b) in H1 by now apply indexOf_LF_none.
  rewrite H1, flat_map_app. simpl. rewrite app_nil_r.
  destruct (trim b) as [|c t] eqn:Et.
  - destruct (flushAtEnd b) as [b' final]. simpl in *.
    rewrite (proj2 F1 eq_refl). simpl. rewrite app_nil_r, H2.
    rewrite (handleLine_blank b) by now rewrite Et.
    now rewrite app_nil_r.
  - rewrite F2 by discriminate. simpl.
    rewrite texts_app, H2. unfold texts. simpl. now rewrite app_nil_r.
Qed.



End WithBuiltins.

End PipelineFacts.

Module PipelineClaims.
Import Pipeline StringFacts PipelineFacts.

Section WithBuiltins.
Context {builtins : Builtins}.















End WithBuiltins.







(** C2, as amended.  The fragments handed to the sink, in order, are those
    of the lines of the concatenated text, in line order; so two
    sequences of chunks with the same concatenation yield the same
    fragments in the same order, wherever the text is cut, a delimiter
    included.  (The spans cut from the buffer are not determined by the
    text alone.) *)
Theorem fragments_independent_of_chunking {builtins : Builtins}
    (chunks1 chunks2 : list (list N))
    (Hsame : concat chunks1 = concat chunks2) :
  fragments (reassemble chunks1) = fragments (reassemble chunks2) /\
  fragments (reassemble chunks1) = flat_map handleLine (lines (concat chunks1)).
Proof.
  rewrite !reassemble_fragments, Hsame. split; reflexivity.
Qed.

Lemma fragments_independent_of_chunking_witness :
  fragments (reassemble (builtins := Examples.runtime) [Examples.twoFrames])
  = fragments (reassemble (builtins := Examples.runtime) Examples.twoFramesCut).
Proof.
  refine (proj1 (@fragments_independent_of_chunking Examples.runtime
                   [Examples.twoFrames] Examples.twoFramesCut _)).
  reflexivity.
Defined.

(** C2, as stated, fails: the text of two frames yields the frames
    [data: {a}] and [data: {b}] in one chunk; cut inside its first
    delimiter it yields [data: {a}], taken by the single-line loop at the
    first chunk, and a second span that starts with a line feed, the only
    one the primary loop cuts. *)
Lemma frames_depend_on_chunking :
  concat [Examples.twoFrames] = concat Examples.twoFramesCut /\
  frames (reassemble (builtins := Examples.runtime) [Examples.twoFrames])
  = [Examples.dataLine "a"; Examples.dataLine "b"] /\
  frames (reassemble (builtins := Examples.runtime) Examples.twoFramesCut)
  = [Examples.dataLine "a"; LF :: Examples.dataLine "b"] /\
  frames (reassemble (builtins := Examples.runtime) [Examples.twoFrames])
  <> frames (reassemble (builtins := Examples.runtime) Examples.twoFramesCut) /\
  primaryFrames (reassemble (builtins := Examples.runtime) [Examples.twoFrames])
  = [Examples.dataLine "a"; Examples.dataLine "b"] /\
  primaryFrames (reassemble (builtins := Examples.runtime) Examples.twoFramesCut)
  = [LF :: Examples.dataLine "b"].
Proof.
  repeat split; try reflexivity. vm_compute. discriminate.
Qed.

(** C3, as amended.  The single-line loop runs in every call of
    [handleText], while chunks arrive as well as at the end: in each call
    the primary loop runs first and stops when the buffer holds no blank
    line, then the single-line loop takes every complete line that is
    left, so that no line feed stays in the buffer.  There is one call per
    chunk.  At the end of the stream one more call is made exactly when
    the buffer holds something other than white space; it takes the
    buffer as a last line and leaves nothing. *)
Theorem single_line_scan_runs_in_every_call {builtins : Builtins} :
  (forall buffer chunk,
      exists mid log1 log2,
        primaryLoop (length (buffer ++ chunk)) (buffer ++ chunk) = (mid, log1) /\
        fallbackLoop (length mid) mid = (fst (handleText buffer chunk), log2) /\
        snd (handleText buffer chunk) = log1 ++ log2 /\
        primaryOnly log1 /\ fallbackOnly log2 /\
        indexOf mid [LF; LF] = None /\
        indexOf (fst (handleText buffer chunk)) [LF] = None) /\
  (forall chunks,
      length (whileStreaming (reassemble chunks)) = length chunks /\
      indexOf (fst (feed [] chunks)) [LF] = None /\
      (atEnd (reassemble chunks) = None <-> trim (fst (feed [] chunks)) = []) /\
      (trim (fst (feed [] chunks)) <> [] ->
       atEnd (reassemble chunks)
       = Some [(FallbackLine (fst (feed [] chunks)),
                handleLine (fst (feed [] chunks)))] /\
       leftover (reassemble chunks) = [])).
Proof.
  split.
  - intros buffer chunk.
    destruct (handleText_spec buffer chunk)
      as [_ [_ [H3 [mid [log1 [log2 [Hp [Hf [Hl [H1 [H2 Hm]]]]]]]]]]].
    exists mid, log1, log2. repeat split; assumption.
  - intros chunks. unfold reassemble.
    destruct (feed_spec chunks []) as [_ [_ [H3 H4]]].
    destruct (feed [] chunks) as [b logs]. simpl in H3, H4. simpl fst.
    specialize (H3 eq_refl).
    destruct (flushAtEnd_spec b H3) as [F1 F2].
    destruct (flushAtEnd b) as [b' final] eqn:Ef. simpl in F1. simpl.
    split; [exact H4|]. split; [exact H3|]. split; [exact F1|].
    intros Hb. specialize (F2 Hb). inversion F2. now split.
Qed.

(** C3, as stated, fails: on two lines that arrive one per chunk, each
    ended by a single line feed, the single-line loop takes a line in each
    of the two calls made while the stream delivers, and no call is made
    at the end of the stream. *)
Lemma single_line_scan_runs_while_streaming :
  whileStreaming (reassemble (builtins := Examples.runtime) Examples.twoLines)
  = [ [(FallbackLine (Examples.dataLine "a"), [lit "a"])];
      [(FallbackLine (Examples.dataLine "b"), [lit "b"])] ] /\
  atEnd (reassemble (builtins := Examples.runtime) Examples.twoLines) = None.
Proof. split; reflexivity. Qed.

End PipelineClaims.

(** ** The relay *)

Module RelayFacts.
Import Http.

Section WithBuiltins.
Context {builtins : Builtins}.
Variable onError : JSValue -> list Effect.

Lemma relay_app shape a : forall s b,
  relay onError shape s (a ++ b)
  = relay onError shape s a
    ++ relay onError shape (relayState onError shape s a) b.
Proof.
  induction a as [|ev a IH]; intros s b; simpl; [reflexivity|].
  destruct (relayStep onError shape s ev) as [s' out]. simpl.
  now rewrite IH, app_assoc.
Qed.

Lemma emitted_writes log : Forall (fun e => isWrite e = true) (emitted log).
Proof.
  unfold emitted. apply Forall_map. apply Forall_forall. reflexivity.
Qed.

(** While the upstream delivers, the relay only writes, stays attached
    and keeps its interval. *)
Lemma relay_delivering shape pre : forall s,
  Forall (fun ev => delivering ev = true) pre ->
  attached s = true -> heartbeat s = true ->
  attached (relayState onError shape s pre) = true /\
  heartbeat (relayState onError shape s pre) = true /\
  Forall (fun e => isWrite e = true) (relay onError shape s pre).
Proof.
  induction pre as [|ev pre IH]; intros s Hall Hat Hhb.
  - simpl. repeat split; auto.
  - inversion Hall as [|? ? Hev Hpre]; subst.
    destruct ev as [text| |m|]; try discriminate Hev.
    + simpl. rewrite Hat.
      destruct (Pipeline.handleText (buffer s) text) as [b' log]. simpl.
      destruct (IH {| buffer := b'; heartbeat := heartbeat s; attached := true |}
                  Hpre eq_refl Hhb) as [I1 [I2 I3]].
      repeat split; try assumption.
      apply Forall_app. split; [apply emitted_writes|exact I3].
    + simpl. rewrite Hhb. simpl.
      destruct (IH s Hpre Hat Hhb) as [I1 [I2 I3]].
      repeat split; try assumption.
      constructor; [reflexivity|exact I3].
Qed.

(** A session whose body is not consumed: only the interval acts. *)
Lemma relay_detached shape evs : forall s,
  attached s = false ->
  relay onError shape s evs
  = if heartbeat s then map (fun _ => ping) (filter isTick evs) else [].
Proof.
  induction evs as [|ev evs IH]; intros s Hat.
  - simpl. now destruct (heartbeat s).
  - destruct ev as [text| |m|]; simpl; rewrite ?Hat; simpl;
      try (now apply IH).
    rewrite (IH s Hat). now destruct (heartbeat s).
Qed.

(** Once the interval is cleared, ticks do nothing. *)
Lemma relay_quiet shape post : forall s,
  heartbeat s = false ->
  Forall (fun ev => isTick ev = true) post ->
  relay onError shape s post = [].
Proof.
  induction post as [|ev post IH]; intros s Hhb Hall; [reflexivity|].
  inversion Hall as [|? ? Hev Hpost]; subst.
  destruct ev; try discriminate Hev.
  simpl. rewrite Hhb. simpl. now apply IH.
Qed.

Lemma flushDone_closing : closing flushDone.
Proof.
  eexists [_; _]. split; [|reflexivity]. repeat constructor.
Qed.

Lemma closing_clears out : closing out -> clears out = true.
Proof. intros [ws [_ ->]]. reflexivity. Qed.

(** A stream that delivers, then ends or fails once, then is silent:
    the relay writes, then closes, and does nothing more. *)
Lemma relay_closes shape pre terminal post s :
  (forall m, closing (onError m)) ->
  attached s = true -> heartbeat s = true ->
  Forall (fun ev => delivering ev = true) pre ->
  delivering terminal = false ->
  Forall (fun ev => isTick ev = true) post ->
  exists ws out,
    Forall (fun e => isWrite e = true) ws /\ closing out /\
    relay onError shape s (pre ++ terminal :: post) = ws ++ out /\
    (forall m, terminal = StreamError m -> out = onError m).
Proof.
  intros Hclose Hat Hhb Hpre Hterm Hpost.
  destruct (relay_delivering shape pre s Hpre Hat Hhb) as [D1 [D2 D3]].
  rewrite relay_app. set (s1 := relayState onError shape s pre) in *.
  destruct terminal as [text| |m|]; try discriminate Hterm.
  - simpl. rewrite D1.
    destruct (Pipeline.flushAtEnd (buffer s1)) as [b' final]. simpl.
    rewrite (relay_quiet shape post); [|simpl; rewrite D2|exact Hpost].
    + rewrite app_nil_r.
      exists (relay onError shape s pre
              ++ match final with Some log => emitted log | None => [] end),
             flushDone.
      split; [|split; [|split]].
      * apply Forall_app. split; [exact D3|].
        destruct final; [apply emitted_writes|constructor].
      * apply flushDone_closing.
      * now rewrite app_assoc.
      * discriminate.
    + replace (clears (match final with Some log => emitted log | None => [] end
                       ++ flushDone)) with true; [reflexivity|].
      symmetry. unfold clears. rewrite existsb_app.
      apply orb_true_iff. now right.
  - simpl. rewrite D1. simpl.
    rewrite (relay_quiet shape post);
      [|simpl; rewrite D2, (closing_clears _ (Hclose m))|exact Hpost].
    + rewrite app_nil_r. exists (relay onError shape s pre), (onError m).
      split; [exact D3|]. split; [apply Hclose|]. split; [reflexivity|].
      intros m' Hm'. now inversion Hm'.
    + reflexivity.
Qed.

End WithBuiltins.

Lemma count_app test a b : count test (a ++ b) = count test a + count test b.
Proof. unfold count. now rewrite filter_app, length_app. Qed.

Lemma writes_count ws :
  Forall (fun e => isWrite e = true) ws ->
  count isClear ws = 0 /\ count isEnd ws = 0.
Proof.
  induction 1 as [|e ws He _ [IH1 IH2]]; [now split|].
  destruct e; try discriminate He. now split.
Qed.

Lemma afterEnd_skip setup rest :
  count isEnd setup = 0 -> afterEnd (setup ++ rest) = afterEnd rest.
Proof.
  induction setup as [|e setup IH]; intros H; [reflexivity|].
  destruct e; simpl in *; try (now apply IH). discriminate H.
Qed.

(** What a closing trace amounts to, after a setup that neither clears
    the interval nor ends the response: one [clearInterval], one [end],
    and nothing after the [end]. *)
Lemma closes_exactly_once setup ws out :
  count isClear setup = 0 -> count isEnd setup = 0 ->
  Forall (fun e => isWrite e = true) ws -> closing out ->
  count isClear (setup ++ ws ++ out) = 1 /\
  count isEnd (setup ++ ws ++ out) = 1 /\
  afterEnd (setup ++ ws ++ out) = [].
Proof.
  intros Hc He Hws [ws' [Hws' ->]].
  destruct (writes_count ws Hws) as [W1 W2].
  destruct (writes_count ws' Hws') as [W1' W2'].
  rewrite !count_app, Hc, He, W1, W2.
  change (ClearInterval :: ws' ++ [End]) with ([ClearInterval] ++ ws' ++ [End]).
  rewrite !count_app, W1', W2'. simpl.
  split; [reflexivity|]. split; [reflexivity|].
  rewrite afterEnd_skip by exact He. rewrite afterEnd_skip by exact W2.
  simpl. rewrite afterEnd_skip by exact W2'. reflexivity.
Qed.

End RelayFacts.

(** ** The handlers *)

Module HandlerFacts.
Import Http.

Section WithBuiltins.
Context {builtins : Builtins}.

(** A [POST] that the limiter admits reaches its route. *)
Lemma gemini_post_routes env st req :
  method req = "POST"%string ->
  fst (Limiter.geminiRateLimiter (now env) st) = true ->
  fst (GeminiJs.handler env st req)
  = cors ++
    (if String.eqb (subpath req) EmptyString then GeminiJs.completionRoute env req
     else if String.eqb (subpath req) "silent" then GeminiJs.silentRoute env req
     else if String.eqb (subpath req) "stream" then GeminiJs.streamRoute env req
     else if String.eqb (subpath req) "stream/silent"
          then GeminiJs.streamSilentRoute env req
          else [Status 404; Json (ErrorBody (str "Unknown Gemini route"))]).
Proof.
  intros Hm Hadm. unfold GeminiJs.handler. rewrite Hm.
  change (String.eqb "POST" "OPTIONS") with false.
  change (String.eqb "POST" "GET") with false.
  change (String.eqb "POST" "POST") with true.
  cbv beta iota. cbn [andb negb].
  destruct (Limiter.geminiRateLimiter (now env) st) as [admitted st'].
  simpl in Hadm. subst admitted. cbn [negb].
  destruct (String.eqb (subpath req) EmptyString); [reflexivity|].
  destruct (String.eqb (subpath req) "silent"); [reflexivity|].
  destruct (String.eqb (subpath req) "stream"); [reflexivity|].
  destruct (String.eqb (subpath req) "stream/silent"); reflexivity.
Qed.

Lemma tooLong_true limit s :
  (limit < Z.of_nat (length s))%Z -> tooLong limit s = true.
Proof. intros H. unfold tooLong. now apply Z.ltb_lt. Qed.

Lemma isEmpty_false (s : list N) : s <> [] -> Pipeline.isEmpty s = false.
Proof. now destruct s. Qed.

(** The stream route of [gemini.js] on a prompt that is too long: the
    SSE headers are set and the interval is scheduled before the length is
    checked; the error is then reported in-band (or as a 500 when nothing
    was sent), the interval is left running, and no upstream call is
    made. *)
Lemma gemini_stream_long_prompt env st req c s :
  method req = "POST"%string -> subpath req = "stream"%string ->
  prompt req = JString (c :: s) ->
  (200000 < Z.of_nat (length (c :: s)))%Z ->
  fst (Limiter.geminiRateLimiter (now env) st) = true ->
  apiKey env <> [] ->
  fst (GeminiJs.handler env st req)
  = cors ++ sseHeaders (hasFlushHeaders env) ++ [SetInterval]
    ++ (if hasFlushHeaders env
        then [errorFrame (str "Input too long, 50k tokens max"); End]
        else [Status 500; Json (ErrorBody (str "Input too long, 50k tokens max"))])
    ++ relay GeminiJs.onStreamError UnknownShape
         {| buffer := []; heartbeat := true; attached := false |} (events env).
Proof.
  intros Hm Hp Hprompt Hlong Hadm Hkey.
  rewrite (gemini_post_routes env st req Hm Hadm), Hp.
  change (String.eqb "stream" EmptyString) with false.
  change (String.eqb "stream" "silent") with false.
  change (String.eqb "stream" "stream") with true.
  cbv iota. f_equal.
  unfold GeminiJs.streamRoute, GeminiJs.streamGenerateContent.
  rewrite Hprompt. unfold validPrompt.
  rewrite (isEmpty_false _ Hkey).
  rewrite (tooLong_true GeminiJs.maxChars (c :: s)) by exact Hlong.
  cbv beta iota zeta. rewrite app_nil_r, <- !app_assoc. do 2 f_equal.
  unfold GeminiJs.catchStream, sseHeaders, headersSent.
  destruct (hasFlushHeaders env); reflexivity.
Qed.

(** The same prompt on the completion route of [gemini.js]: 400. *)
Lemma gemini_completion_long_prompt env st req c s :
  method req = "POST"%string -> subpath req = EmptyString ->
  prompt req = JString (c :: s) ->
  (200000 < Z.of_nat (length (c :: s)))%Z ->
  fst (Limiter.geminiRateLimiter (now env) st) = true ->
  apiKey env <> [] ->
  fst (GeminiJs.handler env st req)
  = cors ++ [Status 400; Json (ErrorBody (str "Input too long, 50k tokens max"))].
Proof.
  intros Hm Hp Hprompt Hlong Hadm Hkey.
  rewrite (gemini_post_routes env st req Hm Hadm), Hp.
  change (String.eqb EmptyString EmptyString) with true. cbv iota. f_equal.
  unfold GeminiJs.completionRoute, GeminiJs.generateContent.
  rewrite Hprompt. unfold validPrompt.
  rewrite (isEmpty_false _ Hkey).
  rewrite (tooLong_true GeminiJs.maxChars (c :: s)) by exact Hlong.
  reflexivity.
Qed.

(** The same prompt on the handler of [gemini/stream.js]: 400. *)
Lemma streamjs_long_prompt env req c s :
  method req = "POST"%string ->
  prompt req = JString (c :: s) ->
  (200000 < Z.of_nat (length (c :: s)))%Z ->
  apiKey env <> [] ->
  StreamJs.handler env req
  = cors ++ [Status 400; Json (ErrorBody (str "Input too long, 50k tokens max"))].
Proof.
  intros Hm Hprompt Hlong Hkey. unfold StreamJs.handler. rewrite Hm.
  change (String.eqb "POST" "OPTIONS") with false.
  change (String.eqb "POST" "POST") with true.
  cbv beta iota. cbn [negb].
  rewrite (isEmpty_false _ Hkey), Hprompt. unfold validPrompt.
  now rewrite (tooLong_true StreamJs.maxChars (c :: s)) by exact Hlong.
Qed.

Lemma tooLong_false limit s :
  (Z.of_nat (length s) <= limit)%Z -> tooLong limit s = false.
Proof. intros H. unfold tooLong. now apply Z.ltb_ge. Qed.

(** The stream route of [gemini.js] on a usable upstream response. *)
Lemma gemini_stream_route env req s up b :
  validPrompt (prompt req) = Some s ->
  apiKey env <> [] ->
  (Z.of_nat (length s) <= 200000)%Z ->
  fetchResult env = Ok up -> ok up = true -> body up = Some b ->
  GeminiJs.streamRoute env req
  = GeminiJs.opening env req s
    ++ match shapeOf b with
       | UnknownShape =>
           GeminiJs.catchStream (GeminiJs.opening env req s)
             (str "Unknown upstream body stream type")
           ++ relay GeminiJs.onStreamError UnknownShape
                {| buffer := []; heartbeat := true; attached := false |}
                (events env)
       | shape =>
           relay GeminiJs.onStreamError shape
             {| buffer := []; heartbeat := true; attached := true |}
             (events env)
       end.
Proof.
  intros Hprompt Hkey Hshort Hfetch Hok Hbody.
  unfold GeminiJs.streamRoute, GeminiJs.streamGenerateContent, GeminiJs.opening.
  rewrite Hprompt, (isEmpty_false _ Hkey).
  rewrite (tooLong_false GeminiJs.maxChars s) by exact Hshort.
  rewrite Hfetch, Hok, Hbody. cbv beta iota zeta. rewrite Hbody.
  destruct (shapeOf b); rewrite <- ?app_assoc; reflexivity.
Qed.

Lemma pings_write n : Forall (fun e => isWrite e = true) (GeminiJs.pings n).
Proof. unfold GeminiJs.pings. induction n; simpl; constructor; auto. Qed.

Lemma sseHeaders_count flush :
  count isClear (sseHeaders flush) = 0 /\ count isEnd (sseHeaders flush) = 0.
Proof. now destruct flush. Qed.

Lemma opening_count env req s :
  count isClear (GeminiJs.opening env req s) = 0 /\
  count isEnd (GeminiJs.opening env req s) = 0.
Proof.
  unfold GeminiJs.opening.
  destruct (sseHeaders_count (hasFlushHeaders env)) as [H1 H2].
  destruct (RelayFacts.writes_count _ (pings_write (ticksWhileAwaiting env)))
    as [P1 P2].
  rewrite !RelayFacts.count_app, H1, H2, P1, P2. now split.
Qed.

(** On a body of unknown shape the stream route of [gemini.js] never
    clears its interval: every later tick writes a ping. *)
Lemma gemini_stream_unknown_shape env req s up b :
  validPrompt (prompt req) = Some s ->
  apiKey env <> [] ->
  (Z.of_nat (length s) <= 200000)%Z ->
  fetchResult env = Ok up -> ok up = true -> body up = Some b ->
  shapeOf b = UnknownShape ->
  GeminiJs.streamRoute env req
  = GeminiJs.opening env req s
    ++ GeminiJs.catchStream (GeminiJs.opening env req s)
         (str "Unknown upstream body stream type")
    ++ map (fun _ => ping) (filter isTick (events env)) /\
  count isClear (GeminiJs.streamRoute env req) = 0.
Proof.
  intros Hprompt Hkey Hshort Hfetch Hok Hbody Hshape.
  rewrite (gemini_stream_route env req s up b) by assumption.
  rewrite Hshape, RelayFacts.relay_detached by reflexivity. simpl heartbeat.
  cbv iota. split; [reflexivity|].
  destruct (opening_count env req s) as [H1 _].
  rewrite !RelayFacts.count_app, H1.
  assert (Hc : count isClear
                 (GeminiJs.catchStream (GeminiJs.opening env req s)
                    (str "Unknown upstream body stream type")) = 0).
  { unfold GeminiJs.catchStream.
    now destruct (negb (headersSent (GeminiJs.opening env req s))). }
  rewrite Hc. simpl.
  induction (filter isTick (events env)); [reflexivity|assumption].
Qed.

(** A body that fails while the stream route of [gemini.js] relays it:
    after the writes made so far the route clears the interval, writes
    the error frame with the message of the failure, and ends. *)
Lemma gemini_stream_reports_failure env req s up b pre m post :
  validPrompt (prompt req) = Some s ->
  apiKey env <> [] ->
  (Z.of_nat (length s) <= 200000)%Z ->
  fetchResult env = Ok up -> ok up = true -> body up = Some b ->
  shapeOf b <> UnknownShape ->
  events env = pre ++ StreamError m :: post ->
  Forall (fun ev => delivering ev = true) pre ->
  exists ws rest,
    Forall (fun e => isWrite e = true) ws /\
    GeminiJs.streamRoute env req
    = GeminiJs.opening env req s ++ ws
      ++ [ClearInterval; errorFrame m; End] ++ rest.
Proof.
  intros Hprompt Hkey Hshort Hfetch Hok Hbody Hshape Hev Hpre.
  rewrite (gemini_stream_route env req s up b) by assumption.
  rewrite Hev.
  set (start := {| buffer := []; heartbeat := true; attached := true |}).
  assert (Hrelay : forall shape,
    exists ws rest,
      Forall (fun e => isWrite e = true) ws /\
      relay GeminiJs.onStreamError shape start (pre ++ StreamError m :: post)
      = ws ++ [ClearInterval; errorFrame m; End] ++ rest).
  { intros shape.
    destruct (RelayFacts.relay_delivering GeminiJs.onStreamError shape pre start
                Hpre eq_refl eq_refl) as [D1 [_ D3]].
    rewrite RelayFacts.relay_app. simpl. rewrite D1. simpl.
    eexists. eexists. split; [exact D3|reflexivity]. }
  destruct (shapeOf b) eqn:E; try (now destruct Hshape);
    destruct (Hrelay (shapeOf b)) as [ws [rest [Hws Hr]]];
    rewrite E in Hr; exists ws, rest; (split; [exact Hws|]);
    now rewrite Hr.
Qed.

(** The handler of [gemini/stream.js] on an upstream that is not ok: one
    JSON response with the status of the upstream, before any SSE
    header. *)
Lemma streamjs_passes_upstream_status env req s up :
  method req = "POST"%string ->
  validPrompt (prompt req) = Some s ->
  apiKey env <> [] ->
  (Z.of_nat (length s) <= 200000)%Z ->
  fetchResult env = Ok up -> ok up = false ->
  StreamJs.handler env req
  = cors
    ++ [ Fetch StreamGenerateContent (StreamJs.defaultModel (model req)) s;
         Status (status up);
         Json (ErrorBody (jsOr (errorDetail up) (str "Gemini streaming error"))) ].
Proof.
  intros Hm Hprompt Hkey Hshort Hfetch Hok. unfold StreamJs.handler. rewrite Hm.
  change (String.eqb "POST" "OPTIONS") with false.
  change (String.eqb "POST" "POST") with true.
  cbv beta iota. cbn [negb].
  rewrite (isEmpty_false _ Hkey), Hprompt.
  rewrite (tooLong_false StreamJs.maxChars s) by exact Hshort.
  rewrite Hfetch, Hok. reflexivity.
Qed.

End WithBuiltins.

Lemma longPrompt_length :
  (200000 < Z.of_nat (length Examples.longPrompt))%Z.
Proof.
  unfold Examples.longPrompt.
  change (length (97%N :: repeat 97%N (N.to_nat 200000)))
    with (S (length (repeat 97%N (N.to_nat 200000)))).
  rewrite repeat_length, Nat2Z.inj_succ, N_nat_Z. reflexivity.
Qed.

End HandlerFacts.

Module HandlerClaims.
Import Http Examples HandlerFacts RelayFacts.

(** C1 fails on the stream route of [gemini.js] when the upstream body has
    none of the three shapes: the outer [catch] writes the error frame and
    ends the response, but the interval, local to the [try] block, is
    never cleared; at the next tick it writes a ping after the end. *)
Theorem heartbeat_outlives_failed_setup :
  fst (GeminiJs.handler (builtins := runtime) opaqueWorld Limiter.initial
         (post "stream" (lit "hello")))
  = cors ++ sseHeaders true
    ++ [ SetInterval;
         Fetch StreamGenerateContent (str "gemini-1.5-flash") (lit "hello");
         errorFrame (builtins := runtime) (str "Unknown upstream body stream type");
         End;
         ping ] /\
  count isClear
    (fst (GeminiJs.handler (builtins := runtime) opaqueWorld Limiter.initial
            (post "stream" (lit "hello")))) = 0 /\
  afterEnd
    (fst (GeminiJs.handler (builtins := runtime) opaqueWorld Limiter.initial
            (post "stream" (lit "hello")))) = [ping].
Proof. repeat split; reflexivity. Qed.

(** What C1 asks for does hold on the paths that go through the relay: a
    body that delivers, then ends or fails once, and is silent afterwards
    leaves a trace with one [clearInterval], one [end], and nothing after
    the [end], in both handlers. *)
Lemma relay_closes_exactly_once {builtins : Builtins}
    (onError : JSValue -> list Effect) shape pre terminal post setup :
  (forall m, closing (onError m)) ->
  count isClear setup = 0 -> count isEnd setup = 0 ->
  Forall (fun ev => delivering ev = true) pre ->
  delivering terminal = false ->
  Forall (fun ev => isTick ev = true) post ->
  let trace :=
    setup ++ relay onError shape
               {| buffer := []; heartbeat := true; attached := true |}
               (pre ++ terminal :: post) in
  count isClear trace = 1 /\ count isEnd trace = 1 /\ afterEnd trace = [].
Proof.
  intros Hclose Hc He Hpre Hterm Hpost trace. subst trace.
  destruct (relay_closes onError shape pre terminal post
              {| buffer := []; heartbeat := true; attached := true |}
              Hclose eq_refl eq_refl Hpre Hterm Hpost)
    as [ws [out [Hws [Hout [Hrelay _]]]]].
  rewrite Hrelay. now apply closes_exactly_once.
Qed.

Lemma gemini_onStreamError_closing {builtins : Builtins} m :
  closing (GeminiJs.onStreamError m).
Proof. eexists [_]. split; [|reflexivity]. repeat constructor. Qed.

Lemma streamjs_onStreamError_closing m : closing (StreamJs.onStreamError m).
Proof. exists []. split; [constructor|reflexivity]. Qed.

(** C6 fails on [gemini/stream.js]: when the body fails after a frame has
    been relayed, its handler clears the interval and ends the response
    without an error frame; the stream route of [gemini.js] writes the
    frame with the message of the error before it ends. *)
Theorem stream_handler_drops_error_frame :
  StreamJs.handler (builtins := runtime) brokenWorld (post "stream" (lit "hello"))
  = cors
    ++ [Fetch StreamGenerateContent (str "gemini-1.5-flash") (lit "hello")]
    ++ sseHeaders true
    ++ [ SetInterval;
         dataEvent (builtins := runtime) (lit "a");
         ClearInterval;
         End ] /\
  fst (GeminiJs.handler (builtins := runtime) brokenWorld Limiter.initial
         (post "stream" (lit "hello")))
  = cors ++ sseHeaders true
    ++ [ SetInterval;
         Fetch StreamGenerateContent (str "gemini-1.5-flash") (lit "hello");
         dataEvent (builtins := runtime) (lit "a");
         ClearInterval;
         errorFrame (builtins := runtime) (str "boom");
         End ].
Proof. split; reflexivity. Qed.

(** C7 fails on the stream route of [gemini.js]: the SSE headers are set
    and flushed and the interval is scheduled before the upstream is
    called, so a 503 of the upstream reaches the caller as an error frame
    on a stream already opened, not as a response with status 503;
    [gemini/stream.js] answers with the status of the upstream and a JSON
    body, and sets no SSE header. *)
Theorem stream_route_opens_before_upstream_answers :
  fst (GeminiJs.handler (builtins := runtime) rejectingWorld Limiter.initial
         (post "stream" (lit "hello")))
  = cors ++ sseHeaders true
    ++ [ SetInterval;
         Fetch StreamGenerateContent (str "gemini-1.5-flash") (lit "hello");
         errorFrame (builtins := runtime)
           (GeminiJs.upstreamMessage (builtins := runtime)
              "Gemini streaming error " (respond 503 (Some readerBody)));
         End ] /\
  StreamJs.handler (builtins := runtime) rejectingWorld (post "stream" (lit "hello"))
  = cors
    ++ [ Fetch StreamGenerateContent (str "gemini-1.5-flash") (lit "hello");
         Status 503;
         Json (ErrorBody (str "detail")) ].
Proof. split; reflexivity. Qed.

(** C8 fails on the stream route of [gemini.js]: a prompt of 200001
    characters is answered, without any upstream call, by an error frame
    on a stream already opened with status 200, where the completion
    route of the same file and [gemini/stream.js] answer 400. *)
Theorem long_prompt_not_rejected_on_stream_route :
  fst (GeminiJs.handler (builtins := runtime) (world (Throws JUndefined) [])
         Limiter.initial (post "stream" longPrompt))
  = cors ++ sseHeaders true
    ++ [ SetInterval;
         errorFrame (builtins := runtime) (str "Input too long, 50k tokens max");
         End ] /\
  fst (GeminiJs.handler (builtins := runtime) (world (Throws JUndefined) [])
         Limiter.initial (post EmptyString longPrompt))
  = cors ++ [Status 400; Json (ErrorBody (str "Input too long, 50k tokens max"))] /\
  StreamJs.handler (builtins := runtime) (world (Throws JUndefined) [])
    (post "stream" longPrompt)
  = cors ++ [Status 400; Json (ErrorBody (str "Input too long, 50k tokens max"))].
Proof.
  split; [|split].
  - rewrite (gemini_stream_long_prompt (builtins := runtime) _ _ _
               97%N (repeat 97%N (N.to_nat 200000)));
      first [exact longPrompt_length | discriminate | reflexivity].
  - apply (gemini_completion_long_prompt (builtins := runtime) _ _ _
             97%N (repeat 97%N (N.to_nat 200000)));
      first [exact longPrompt_length | discriminate | reflexivity].
  - apply (streamjs_long_prompt (builtins := runtime) _ _
             97%N (repeat 97%N (N.to_nat 200000)));
      first [exact longPrompt_length | discriminate | reflexivity].
Qed.

(** C10, as stated, fails: a first part whose text is the number 42 has
    no string text, and the completion handler answers 200 with that
    number as the text, not with the empty string. *)
Lemma completion_passes_non_string_text :
  IndexJs.handler (builtins := runtime) (answering numericText)
    (post EmptyString (lit "hello"))
  = cors
    ++ [ Fetch GenerateContent (str "gemini-1.5-flash") (lit "hello");
         Status 200;
         Json (TextBody (JNumber 42%float)) ].
Proof. reflexivity. Qed.

(** C10, as amended.  On a 2xx upstream response with a JSON body, both
    completion handlers answer 200 with the text found at
    [candidates[0].content.parts[0].text] when that value is truthy, and
    with the empty string otherwise; the value is falsy, and the text
    hence empty, when the body has no [candidates], when the first
    candidate has no [content.parts], and when the text of the first part
    is absent, null, false, zero or the empty string. *)
Theorem completion_defaults_to_empty_text {builtins : Builtins}
    env st req s upstream data
    (Hpost : method req = "POST"%string)
    (Hkey : apiKey env <> [])
    (Hprompt : validPrompt (prompt req) = Some s)
    (Hshort : (Z.of_nat (length s) <= 200000)%Z)
    (Hfetch : fetchResult env = Ok upstream)
    (Hok : (200 <= status upstream <= 299)%Z)
    (Hjson : jsonResult upstream = Ok data) :
  let parts :=
    getProp (getProp (getFirst (getProp data "candidates")) "content") "parts" in
  let text := getProp (getFirst parts) "text" in
  let answer := if truthy text then text else JString [] in
  IndexJs.handler env req
  = cors ++ [ Fetch GenerateContent (IndexJs.defaultModel (model req)) s;
              Status 200; Json (TextBody answer) ] /\
  (subpath req = EmptyString ->
   fst (Limiter.geminiRateLimiter (now env) st) = true ->
   fst (GeminiJs.handler env st req)
   = cors ++ [ Fetch GenerateContent (GeminiJs.defaultModel (model req)) s;
               Status 200; Json (TextBody answer) ]) /\
  (getProp data "candidates" = JUndefined \/ parts = JUndefined
   \/ text = JUndefined \/ text = JNull \/ text = JBool false
   \/ text = JNumber 0%float \/ text = JString [] ->
   answer = JString []).
Proof.
  intros parts text answer.
  assert (Hlen : forall limit, limit = 200000%Z -> tooLong limit s = false).
  { intros limit ->. unfold tooLong. apply Z.ltb_ge. exact Hshort. }
  assert (Hok' : ok upstream = true).
  { unfold ok. apply andb_true_iff. split; apply Z.leb_le; lia. }
  split; [|split].
  - unfold IndexJs.handler. rewrite Hpost.
    change (String.eqb "POST" "OPTIONS") with false.
    change (String.eqb "POST" "POST") with true.
    cbv beta iota. cbn [negb].
    rewrite (isEmpty_false _ Hkey), Hprompt, (Hlen IndexJs.maxChars eq_refl).
    rewrite Hfetch, Hok'. cbn [negb]. rewrite Hjson. reflexivity.
  - intros Hpath Hadm.
    rewrite (gemini_post_routes env st req Hpost Hadm), Hpath.
    change (String.eqb EmptyString EmptyString) with true. cbv iota. f_equal.
    unfold GeminiJs.completionRoute, GeminiJs.generateContent.
    rewrite Hprompt, (isEmpty_false _ Hkey), (Hlen GeminiJs.maxChars eq_refl).
    rewrite Hfetch, Hok'. cbn [negb]. rewrite Hjson. reflexivity.
  - subst answer text parts.
    intros [H|[H|[H|[H|[H|[H|H]]]]]]; rewrite H; reflexivity.
Qed.

Lemma completion_defaults_to_empty_text_witness :
  IndexJs.handler (builtins := runtime) (answering (JObject []))
    (post EmptyString (lit "hello"))
  = cors
    ++ [ Fetch GenerateContent (str "gemini-1.5-flash") (lit "hello");
         Status 200;
         Json (TextBody (JString [])) ].
Proof.
  refine (proj1 (@completion_defaults_to_empty_text runtime
                   (answering (JObject [])) Limiter.initial
                   (post EmptyString (lit "hello")) (lit "hello")
                   _ (JObject []) eq_refl _ eq_refl _ eq_refl _ eq_refl)).
  - discriminate.
  - vm_compute. discriminate.
  - vm_compute. split; discriminate.
Defined.

End HandlerClaims.

(** ** More on the limiter *)

Module LimiterMore.
Import Limiter LimiterFacts Observe.

Lemma prune_idem now times : prune now (prune now times) = prune now times.
Proof. apply prune_later. lia. Qed.

Lemma check_result now st :
  fst (geminiRateLimiter now st)
  = negb (10 <=? Z.of_nat (length (prune now (requestTimes st))))%Z.
Proof.
  unfold geminiRateLimiter, MAX_REQ.
  now destruct (10 <=? Z.of_nat (length (prune now (requestTimes st))))%Z.
Qed.

Lemma step_check st n :
  snd (step st (Check n)) = if fst (geminiRateLimiter n st) then [n] else [].
Proof. simpl. now destruct (geminiRateLimiter n st) as [[|] st']. Qed.

Lemma inOrder_filter calls : inOrder calls -> inOrder (filter isCheck calls).
Proof.
  unfold inOrder. induction calls as [|c calls IH]; intros H; [constructor|].
  simpl in H. apply StronglySorted_inv in H. destruct H as [Hs Hall].
  simpl. destruct (isCheck c); [|now apply IH].
  simpl. constructor; [now apply IH|].
  rewrite Forall_forall in *. intros t Ht. apply Hall.
  rewrite in_map_iff in *. destruct Ht as [d [Hd Hin]].
  exists d. split; [exact Hd|]. apply filter_In in Hin. tauto.
Qed.

Lemma Forall_filter_calls (P : Call -> Prop) calls :
  Forall P calls -> Forall P (filter isCheck calls).
Proof.
  intros H. rewrite Forall_forall in *. intros c Hc.
  apply filter_In in Hc. now apply H.
Qed.

(** Queries of the [limit] route change no admission: the checks of a
    sequence of calls are admitted or rejected as they would be had the
    queries not been made. *)
Theorem queries_change_no_admission (calls : list Call)
    (Hord : inOrder calls) :
  snd (run initial calls) = snd (run initial (filter isCheck calls)).
Proof.
  induction calls as [|c calls IH] using rev_ind; [reflexivity|].
  apply inOrder_snoc in Hord. destruct Hord as [Hord Hle].
  specialize (IH Hord).
  rewrite filter_app. destruct c as [n|n]; simpl filter.
  - rewrite !run_snoc. cbn [fst snd]. rewrite !step_check, IH.
    f_equal. rewrite !check_result.
    pose proof (run_history Hord Hle) as H1.
    pose proof (run_history (inOrder_filter calls Hord)
                  (Forall_filter_calls _ calls Hle)) as H2.
    change (instant (Check n)) with n in H1, H2.
    now rewrite H1, H2, IH.
  - rewrite app_nil_r, run_snoc. cbn [fst snd step]. now rewrite app_nil_r.
Qed.

Lemma queries_change_no_admission_witness :
  snd (run initial Examples.burst)
  = snd (run initial (filter isCheck Examples.burst)).
Proof.
  apply queries_change_no_admission.
  unfold inOrder; simpl;
    repeat (constructor; [| repeat (constructor; try lia)]); constructor.
Defined.

Lemma ceilSeconds_bounds ms :
  (1000 * (ceilSeconds ms - 1) < ms <= 1000 * ceilSeconds ms)%Z.
Proof.
  unfold ceilSeconds.
  pose proof (Z.div_mod (- ms) 1000 ltac:(lia)).
  pose proof (Z.mod_pos_bound (- ms) 1000 ltac:(lia)).
  lia.
Qed.

Lemma step_pruned st c :
  prune (instant c) (requestTimes (fst (step st c)))
  = requestTimes (fst (step st c)).
Proof.
  destruct c as [n|n]; simpl.
  - unfold geminiRateLimiter.
    destruct (MAX_REQ <=? Z.of_nat (length (prune n (requestTimes st))))%Z; simpl.
    + apply prune_idem.
    + rewrite prune_app, prune_idem. f_equal. simpl.
      replace (n - n <? WINDOW_MS)%Z with true; [reflexivity|].
      symmetry. apply Z.ltb_lt. unfold WINDOW_MS. lia.
  - apply prune_idem.
Qed.

(** What the instance holds: after calls made in the order of the clock,
    the list is exactly the instants of the admitted checks that are less
    than 60 s older than the last call, oldest first, and never more than
    10 of them. *)
Theorem limiter_holds_recent_admissions (calls : list Call) (c : Call)
    (Hord : inOrder (calls ++ [c])) :
  requestTimes (fst (run initial (calls ++ [c])))
  = prune (instant c) (snd (run initial (calls ++ [c]))) /\
  StronglySorted Z.le (requestTimes (fst (run initial (calls ++ [c])))) /\
  length (requestTimes (fst (run initial (calls ++ [c])))) <= 10.
Proof.
  split; [|split; [now apply run_sorted|apply run_length]].
  assert (Hall : Forall (fun d => (instant d <= instant c)%Z) (calls ++ [c])).
  { destruct (inOrder_snoc calls c Hord) as [_ Hle].
    apply Forall_app. split; [exact Hle|]. constructor; [lia|constructor]. }
  rewrite <- (run_history Hord Hall).
  rewrite run_snoc. cbn [fst]. symmetry. apply step_pruned.
Qed.

Lemma limiter_holds_recent_admissions_witness :
  requestTimes (fst (run initial Examples.burst))
  = [1000; 2000; 3000; 4000; 5000; 6000; 7000; 8000; 9000; 60000]%Z.
Proof.
  refine (eq_trans
            (proj1 (@limiter_holds_recent_admissions
                      (removelast Examples.burst) (Check 60000) _)) _).
  - unfold inOrder; simpl;
      repeat (constructor; [| repeat (constructor; try lia)]); constructor.
  - reflexivity.
Defined.

(** The query and the check agree, and the query does not disturb the
    check: [limit] is 1 exactly when a check at the same instant is
    rejected, [remaining] is positive exactly when it is admitted, the
    check answers the same and leaves the same list after a query as
    without it, and a second query at the same instant answers as the
    first. *)
Theorem limit_query_agrees_with_check (now : Z) (st : State) :
  (limit (fst (limitStatus now st)) = 1%Z
   <-> fst (geminiRateLimiter now st) = false) /\
  ((0 < remaining (fst (limitStatus now st)))%Z
   <-> fst (geminiRateLimiter now st) = true) /\
  geminiRateLimiter now (snd (limitStatus now st)) = geminiRateLimiter now st /\
  limitStatus now (snd (limitStatus now st)) = limitStatus now st.
Proof.
  rewrite check_result.
  unfold limitStatus, geminiRateLimiter, MAX_REQ. cbn [fst snd limit remaining requestTimes].
  rewrite prune_idem.
  destruct (10 <=? Z.of_nat (length (prune now (requestTimes st))))%Z eqn:E;
    [apply Z.leb_le in E | apply Z.leb_gt in E]; cbn [negb].
  - repeat split; try reflexivity; try discriminate; intros; lia.
  - repeat split; try reflexivity; try discriminate; intros; lia.
Qed.

(** [secondsRemaining] is a sound hint: when a query made after calls in
    the order of the clock reports the limit as reached, it reports
    between 1 and 60 seconds, and a check made that many seconds later is
    admitted. *)
Theorem retry_after_seconds_remaining (calls : list Call) (now : Z)
    (Hord : inOrder calls)
    (Hnow : Forall (fun c => (instant c <= now)%Z) calls)
    (Hlimited : limit (fst (limitStatus now (fst (run initial calls)))) = 1%Z) :
  let info := fst (limitStatus now (fst (run initial calls))) in
  (1 <= secondsRemaining info <= 60)%Z /\
  fst (geminiRateLimiter (now + 1000 * secondsRemaining info)
         (snd (limitStatus now (fst (run initial calls))))) = true.
Proof.
  pose proof (run_length calls) as Hlen.
  destruct (run_admitted_before Hnow) as [_ Hbefore].
  set (st := fst (run initial calls)) in *.
  intros info. subst info. revert Hlimited.
  rewrite check_result.
  unfold limitStatus, MAX_REQ, WINDOW_MS.
  cbn [fst snd limit secondsRemaining requestTimes].
  pose proof (prune_length now (requestTimes st)) as Hkept.
  destruct (10 <=? Z.of_nat (length (prune now (requestTimes st))))%Z eqn:E;
    [intros _ | discriminate].
  apply Z.leb_le in E.
  destruct (prune now (requestTimes st)) as [|first rest] eqn:Hk;
    [simpl in E; lia|].
  assert (Hin : In first (prune now (requestTimes st)))
    by (rewrite Hk; now left).
  apply prune_In in Hin. destruct Hin as [Hin Hrecent].
  unfold WINDOW_MS in Hrecent.
  rewrite Forall_forall in Hbefore. specialize (Hbefore first Hin).
  rewrite Z.max_r by lia.
  pose proof (ceilSeconds_bounds (60000 - (now - first))) as Hceil.
  split; [lia|].
  set (later := (now + 1000 * ceilSeconds (60000 - (now - first)))%Z) in *.
  change (prune later (first :: rest))
    with (if (later - first <? WINDOW_MS)%Z
          then first :: prune later rest else prune later rest).
  replace (later - first <? WINDOW_MS)%Z with false
    by (symmetry; apply Z.ltb_ge; unfold WINDOW_MS; subst later; lia).
  pose proof (prune_length later rest) as Hr.
  simpl in Hkept. apply negb_true_iff, Z.leb_gt. lia.
Qed.

Lemma retry_after_seconds_remaining_witness :
  fst (geminiRateLimiter 60500
         (snd (limitStatus 10500 (fst (run initial (firstn 11 Examples.burst))))))
  = true.
Proof.
  refine (proj2 (@retry_after_seconds_remaining
                   (firstn 11 Examples.burst) 10500%Z _ _ _)).
  - unfold inOrder; simpl;
      repeat (constructor; [| repeat (constructor; try lia)]); constructor.
  - simpl. repeat (constructor; [simpl; lia|]). constructor.
  - reflexivity.
Defined.

End LimiterMore.

(** ** More on the pipeline *)

Module PipelineMore.
Import Pipeline StringFacts PipelineFacts Observe.

Section WithBuiltins.
Context {builtins : Builtins}.

Lemma partTexts_nonempty parts : Forall (fun t => t <> []) (partTexts parts).
Proof.
  unfold partTexts. apply Forall_flat_map. apply Forall_forall. intros p _.
  destruct (getProp p "text") as [| | | |t| |]; try constructor.
  destruct t; simpl; [constructor|]. constructor; [discriminate|constructor].
Qed.

Lemma emitTextsFromObj_nonempty obj :
  Forall (fun t => t <> []) (emitTextsFromObj obj).
Proof.
  unfold emitTextsFromObj.
  destruct (getProp obj "candidates") as [| | | | |candidates|]; try constructor.
  apply Forall_flat_map. apply Forall_forall. intros c _.
  destruct (getProp (getProp c "content") "parts"); try constructor.
  apply partTexts_nonempty.
Qed.

Lemma handleLine_nonempty raw : Forall (fun t => t <> []) (handleLine raw).
Proof.
  unfold handleLine.
  destruct (isEmpty (trim raw) || startsWith (trim raw) (lit ":")
            || startsWith (toLowerCase (trim raw)) (lit "event:"));
    [constructor|].
  destruct (isEmpty _); [constructor|].
  destruct (JSON_parse _); [apply emitTextsFromObj_nonempty|constructor].
Qed.

(** No empty fragment ever reaches the sink: whatever the upstream sends
    and however it is cut into chunks, every fragment of a run is a
    non-empty text. *)
Theorem fragments_are_never_empty (chunks : list (list N)) :
  Forall (fun t => t <> []) (fragments (reassemble chunks)).
Proof.
  rewrite reassemble_fragments. apply Forall_flat_map.
  apply Forall_forall. intros l _. apply handleLine_nonempty.
Qed.

(** Two calls of [handleText] in a row leave the buffer, and hand over
    the texts, that one call with the two chunks joined does. *)
Theorem handleText_composes (buffer a b : list N) :
  fst (handleText (fst (handleText buffer a)) b)
  = fst (handleText buffer (a ++ b)) /\
  texts (snd (handleText buffer a))
  ++ texts (snd (handleText (fst (handleText buffer a)) b))
  = texts (snd (handleText buffer (a ++ b))).
Proof.
  destruct (handleText_spec buffer a) as [A1 [A2 _]].
  destruct (handleText_spec (fst (handleText buffer a)) b) as [B1 [B2 _]].
  destruct (handleText_spec buffer (a ++ b)) as [C1 [C2 _]].
  rewrite app_assoc, (lines_continue _ _ _ _ A1), B1, app_assoc in C1.
  apply app_inj_tail in C1. destruct C1 as [Hlines Hbuf].
  split; [exact Hbuf|].
  now rewrite A2, B2, C2, <- Hlines, flat_map_app.
Qed.

Lemma lines_toCRLF s : lines (toCRLF s) = withCR (lines s).
Proof.
  induction s as [|c s IH]; [reflexivity|].
  simpl toCRLF. destruct (N.eqb c LF) eqn:E.
  - apply N.eqb_eq in E. subst c.
    change (lines (CR :: LF :: toCRLF s)) with ([CR] :: lines (toCRLF s)).
    rewrite IH. change (lines (LF :: s)) with ([] :: lines s).
    pose proof (lines_nonempty s) as Hne.
    now destruct (lines s).
  - destruct (lines_cons_other c (toCRLF s) E) as [l [ls [Hl Hc]]].
    destruct (lines_cons_other c s E) as [l' [ls' [Hl' Hc']]].
    rewrite Hc, Hc'. rewrite IH, Hl' in Hl.
    destruct ls' as [|m ls']; simpl in Hl; inversion Hl; subst; reflexivity.
Qed.

Lemma withCR_trim ls : map trim (withCR ls) = map trim ls.
Proof.
  induction ls as [|l ls IH]; [reflexivity|].
  destruct ls as [|m ls]; [reflexivity|].
  change (withCR (l :: m :: ls)) with ((l ++ [CR]) :: withCR (m :: ls)).
  cbn [map]. rewrite IH. cbn [map]. f_equal. now apply trim_snoc.
Qed.

(** Carriage returns before the line feeds change nothing: a text sent
    with CRLF line ends, in any chunks, yields the fragments of the same
    text sent with LF line ends. *)
Theorem crlf_line_ends_change_nothing (chunks1 chunks2 : list (list N))
    (Hsame : concat chunks1 = toCRLF (concat chunks2)) :
  fragments (reassemble chunks1) = fragments (reassemble chunks2).
Proof.
  rewrite !reassemble_fragments, Hsame, lines_toCRLF.
  apply handleLine_map_trim, withCR_trim.
Qed.

Lemma trimStart_app_keep a b c :
  isWhiteSpace c = false -> trimStart (a ++ c :: b) = trimStart a ++ c :: b.
Proof.
  intros Hc. induction a as [|x a IH]; simpl; [now rewrite Hc|].
  now destruct (isWhiteSpace x).
Qed.

Lemma trimStart_idem s : trimStart (trimStart s) = trimStart s.
Proof.
  induction s as [|c s IH]; [reflexivity|].
  simpl. destruct (isWhiteSpace c) eqn:E; [exact IH|].
  simpl. now rewrite E.
Qed.

Lemma trimEnd_idem s : trimEnd (trimEnd s) = trimEnd s.
Proof. unfold trimEnd. now rewrite rev_involutive, trimStart_idem. Qed.

Lemma trim_after_data l :
  trim ([100; 97; 116; 97; 58]%N ++ l) = [100; 97; 116; 97; 58]%N ++ trimEnd l.
Proof.
  unfold trim.
  assert (H : trimEnd ([100; 97; 116; 97; 58]%N ++ l)
              = [100; 97; 116; 97; 58]%N ++ trimEnd l).
  { unfold trimEnd. rewrite rev_app_distr.
    change (rev [100; 97; 116; 97; 58]%N) with (58 :: [97; 116; 97; 100])%N.
    rewrite trimStart_app_keep by reflexivity.
    rewrite rev_app_distr. reflexivity. }
  rewrite H. reflexivity.
Qed.

(** The [data:] prefix is optional: a line yields with the prefix what it
    yields without it, provided what follows the prefix is not itself a
    comment, an event line or a data line. *)
Theorem data_prefix_is_optional (l : list N)
    (Hcomment : startsWith (trim l) (lit ":") = false)
    (Hevent : startsWith (toLowerCase (trim l)) (lit "event:") = false)
    (Hdata : startsWith (toLowerCase (trim l)) (lit "data:") = false) :
  handleLine (lit "data:" ++ l) = handleLine l.
Proof.
  unfold handleLine.
  change (lit "data:") with [100; 97; 116; 97; 58]%N in *.
  rewrite trim_after_data, Hcomment, Hevent, Hdata.
  change (isEmpty ([100; 97; 116; 97; 58]%N ++ trimEnd l)
          || startsWith ([100; 97; 116; 97; 58]%N ++ trimEnd l) (lit ":")
          || startsWith (toLowerCase ([100; 97; 116; 97; 58]%N ++ trimEnd l))
               (lit "event:")) with false.
  assert (Hpre : startsWith
                   (toLowerCase ([100; 97; 116; 97; 58]%N ++ trimEnd l))
                   [100; 97; 116; 97; 58]%N = true).
  { simpl. now destruct (toLowerCase (trimEnd l)). }
  rewrite Hpre. cbv iota zeta.
  change (sliceFrom ([100; 97; 116; 97; 58]%N ++ trimEnd l) 5)
    with (trimEnd l).
  unfold trim at 1 2. rewrite trimEnd_idem. fold (trim l).
  rewrite !orb_false_r. now destruct (isEmpty (trim l)).
Qed.

End WithBuiltins.

Lemma data_prefix_is_optional_witness :
  handleLine (builtins := Examples.runtime)
    (lit "data:" ++ 32%N :: 123%N :: lit "a" ++ [125%N])
  = [lit "a"].
Proof.
  refine (eq_trans
            (@data_prefix_is_optional Examples.runtime
               (32%N :: 123%N :: lit "a" ++ [125%N]) _ _ _) _);
    reflexivity.
Defined.

Lemma crlf_line_ends_change_nothing_witness :
  fragments (reassemble (builtins := Examples.runtime)
               [toCRLF Examples.twoFrames])
  = fragments (reassemble (builtins := Examples.runtime) Examples.twoFramesCut).
Proof.
  apply (crlf_line_ends_change_nothing (builtins := Examples.runtime)).
  reflexivity.
Defined.

End PipelineMore.

(** ** More on the relay *)

Module RelayMore.
Import Http Observe RelayFacts PipelineFacts.

Lemma jsstring_eqb_neq (a b : list N) : a <> b -> jsstring_eqb a b = false.
Proof.
  intros H. unfold jsstring_eqb. now destruct (list_eq_dec N.eq_dec a b).
Qed.

Section WithBuiltins.
Context {builtins : Builtins}.

Lemma emitted_app a b : emitted (a ++ b) = emitted a ++ emitted b.
Proof. unfold emitted. now rewrite texts_app, map_app. Qed.

Lemma relay_chunks onError shape chunks : forall s rest,
  attached s = true ->
  relay onError shape s (map Chunk chunks ++ rest)
  = emitted (concat (snd (Pipeline.feed (buffer s) chunks)))
    ++ relay onError shape
         {| buffer := fst (Pipeline.feed (buffer s) chunks);
            heartbeat := heartbeat s; attached := true |} rest.
Proof.
  induction chunks as [|c chunks IH]; intros s rest Hat.
  - simpl. destruct s as [b h a]. simpl in *. now subst a.
  - simpl. rewrite Hat.
    destruct (Pipeline.handleText (buffer s) c) as [b1 log]. simpl.
    rewrite IH by reflexivity. simpl.
    destruct (Pipeline.feed b1 chunks) as [b2 logs]. simpl.
    now rewrite emitted_app, app_assoc.
Qed.

(** A body that delivers chunks and then ends, with no tick of the
    interval in between: the relay writes one data event per fragment of
    the lines of the whole text, in order, and then closes. *)
Lemma relay_whole_stream onError shape chunks :
  relay onError shape {| buffer := []; heartbeat := true; attached := true |}
    (map Chunk chunks ++ [EndOfStream])
  = map dataEvent (flat_map Pipeline.handleLine
                     (Pipeline.lines (concat chunks)))
    ++ flushDone.
Proof.
  rewrite relay_chunks by reflexivity. simpl.
  rewrite <- reassemble_fragments.
  unfold Pipeline.fragments, Pipeline.runEntries, Pipeline.reassemble.
  destruct (Pipeline.feed [] chunks) as [b logs]. simpl.
  destruct (Pipeline.flushAtEnd b) as [b' final]. simpl.
  rewrite app_nil_r, app_assoc. f_equal.
  fold (emitted (concat logs ++ match final with Some l => l | None => [] end)).
  rewrite emitted_app. now destruct final.
Qed.

Lemma dataEvent_not_ping t : isPing (dataEvent t) = false.
Proof. apply jsstring_eqb_neq. discriminate. Qed.

Lemma emitted_not_ping log : Forall (fun e => isPing e = false) (emitted log).
Proof.
  unfold emitted. apply Forall_map. apply Forall_forall.
  intros t _. apply dataEvent_not_ping.
Qed.

Lemma flushDone_not_ping : Forall (fun e => isPing e = false) flushDone.
Proof.
  repeat constructor; apply jsstring_eqb_neq; discriminate.
Qed.

Lemma filter_keep (test : Effect -> bool) out :
  Forall (fun e => test e = false) out ->
  filter (fun e => negb (test e)) out = out.
Proof.
  induction 1 as [|e out He _ IH]; [reflexivity|].
  simpl. now rewrite He, IH.
Qed.

Lemma relay_without_ticks onError shape evs : forall s,
  (forall m, Forall (fun e => isPing e = false) (onError m)) ->
  filter (fun e => negb (isPing e)) (relay onError shape s evs)
  = relay onError shape s (filter (fun ev => negb (isTick ev)) evs).
Proof.
  intros s Herr. revert s.
  induction evs as [|ev evs IH]; intros s; [reflexivity|].
  assert (Hstep : forall s' out,
             Forall (fun e => isPing e = false) out ->
             filter (fun e => negb (isPing e))
               (out ++ relay onError shape s' evs)
             = out ++ relay onError shape s'
                        (filter (fun ev => negb (isTick ev)) evs)).
  { intros s' out Hout. now rewrite filter_app, filter_keep, IH. }
  destruct ev as [text| |m|].
  - simpl. destruct (attached s).
    + destruct (Pipeline.handleText (buffer s) text) as [b' log].
      apply Hstep, emitted_not_ping.
    + apply (Hstep s []). constructor.
  - simpl. destruct (attached s).
    + destruct (Pipeline.flushAtEnd (buffer s)) as [b' final].
      apply Hstep. apply Forall_app. split; [|apply flushDone_not_ping].
      destruct final; [apply emitted_not_ping|constructor].
    + apply (Hstep s []). constructor.
  - simpl. destruct (attached s).
    + apply Hstep, Herr.
    + apply (Hstep s []). constructor.
  - simpl. destruct (heartbeat s); simpl; apply IH.
Qed.

(** The heartbeat changes nothing else: with the pings left out, what
    both handlers of the stream route do on a schedule of events is what
    they do on the same schedule with no tick of the interval in it. *)
Theorem heartbeat_changes_nothing_else (shape : Shape) (s : Session)
    (evs : list StreamEvent) :
  filter (fun e => negb (isPing e)) (relay GeminiJs.onStreamError shape s evs)
  = relay GeminiJs.onStreamError shape s
      (filter (fun ev => negb (isTick ev)) evs) /\
  filter (fun e => negb (isPing e)) (relay StreamJs.onStreamError shape s evs)
  = relay StreamJs.onStreamError shape s
      (filter (fun ev => negb (isTick ev)) evs).
Proof.
  split; apply relay_without_ticks; intros m;
    repeat constructor; apply jsstring_eqb_neq; discriminate.
Qed.

Lemma relayState_attached onError shape pre : forall s,
  Forall (fun ev => delivering ev = true) pre ->
  attached s = true ->
  attached (relayState onError shape s pre) = true.
Proof.
  induction pre as [|ev pre IH]; intros s Hall Hat; [exact Hat|].
  inversion Hall as [|? ? Hev Hpre]; subst.
  destruct ev as [text| |m|]; try discriminate Hev; simpl.
  - rewrite Hat. destruct (Pipeline.handleText (buffer s) text) as [b' log].
    now apply IH.
  - now apply IH.
Qed.

(** A pull reader and an async sequence are left at their first end or
    error: whatever the schedule holds after it, further chunks, ends,
    errors or ticks, nothing more is done. *)
Theorem pull_relay_stops_at_first_end_or_error
    (onError : JSValue -> list Effect) (shape : Shape) (s : Session)
    (pre post : list StreamEvent) (terminal : StreamEvent)
    (Hshape : shape <> PushEmitter)
    (Hclears : forall m, clears (onError m) = true)
    (Hat : attached s = true)
    (Hpre : Forall (fun ev => delivering ev = true) pre)
    (Hterm : delivering terminal = false) :
  relay onError shape s (pre ++ terminal :: post)
  = relay onError shape s (pre ++ [terminal]).
Proof.
  rewrite !relay_app.
  pose proof (relayState_attached onError shape pre s Hpre Hat) as Hat1.
  set (s1 := relayState onError shape s pre) in *. f_equal.
  assert (Hstays : match shape with PushEmitter => true | _ => false end = false)
    by (destruct shape; try reflexivity; now destruct Hshape).
  destruct terminal as [text| |m|]; try discriminate Hterm; simpl;
    rewrite Hat1, Hstays.
  - destruct (Pipeline.flushAtEnd (buffer s1)) as [b' final]. simpl.
    rewrite relay_detached by reflexivity. simpl.
    replace (clears (match final with Some log => emitted log | None => [] end
                     ++ flushDone)) with true; [now rewrite andb_false_r|].
    symmetry. unfold clears. rewrite existsb_app.
    apply orb_true_iff. now right.
  - simpl. rewrite relay_detached by reflexivity. simpl.
    now rewrite Hclears, andb_false_r.
Qed.

End WithBuiltins.

Lemma pull_relay_stops_at_first_end_or_error_witness :
  relay (builtins := Examples.runtime) StreamJs.onStreamError PullReader
    {| buffer := []; heartbeat := true; attached := true |}
    ([Chunk (Examples.dataLine "a" ++ [LF])]
     ++ StreamError JUndefined :: [Tick; EndOfStream; Chunk [LF]])
  = [dataEvent (builtins := Examples.runtime) (lit "a"); ClearInterval; End].
Proof.
  refine (eq_trans
            (@pull_relay_stops_at_first_end_or_error Examples.runtime
               StreamJs.onStreamError PullReader _
               [Chunk (Examples.dataLine "a" ++ [LF])]
               [Tick; EndOfStream; Chunk [LF]] (StreamError JUndefined)
               _ _ _ _ _) _); try reflexivity.
  - discriminate.
  - repeat constructor.
Defined.

End RelayMore.

(** ** More on the handlers *)

Module HandlerMore.
Import Http Observe RelayFacts HandlerFacts RelayMore.

Lemma count_none (test : Effect -> bool) trace :
  Forall (fun e => test e = false) trace -> count test trace = 0.
Proof.
  induction 1 as [|e trace He _ IH]; [reflexivity|].
  unfold count in *. simpl. now rewrite He.
Qed.

Section WithBuiltins.
Context {builtins : Builtins}.

(** Everything a relay does is a write, a [clearInterval], an [end], or
    what its error path does. *)
Lemma relay_all (P : Effect -> Prop) onError shape evs : forall s,
  (forall w, P (Write w)) -> P ClearInterval -> P End ->
  (forall m, Forall P (onError m)) ->
  Forall P (relay onError shape s evs).
Proof.
  intros s Hw Hc He Herr. revert s.
  assert (Hem : forall log, Forall P (emitted log)).
  { intros log. unfold emitted. apply Forall_map, Forall_forall.
    intros t _. apply Hw. }
  induction evs as [|ev evs IH]; intros s; [constructor|].
  destruct ev as [text| |m|]; simpl.
  - destruct (attached s); [|apply IH].
    destruct (Pipeline.handleText (buffer s) text) as [b' log].
    apply Forall_app. split; [apply Hem|apply IH].
  - destruct (attached s); [|apply IH].
    destruct (Pipeline.flushAtEnd (buffer s)) as [b' final].
    apply Forall_app. split; [|apply IH].
    apply Forall_app. split; [destruct final; [apply Hem|constructor]|].
    repeat constructor; auto.
  - destruct (attached s); [|apply IH].
    apply Forall_app. split; [apply Herr|apply IH].
  - destruct (heartbeat s); [|apply IH].
    constructor; [apply Hw|apply IH].
Qed.

Lemma gemini_relay_all (P : Effect -> Prop) shape s evs :
  (forall w, P (Write w)) -> P ClearInterval -> P End ->
  Forall P (relay GeminiJs.onStreamError shape s evs).
Proof.
  intros Hw Hc He. apply relay_all; auto.
  intros m. repeat constructor; auto. apply Hw.
Qed.

Lemma streamjs_relay_all (P : Effect -> Prop) shape s evs :
  (forall w, P (Write w)) -> P ClearInterval -> P End ->
  Forall P (relay StreamJs.onStreamError shape s evs).
Proof.
  intros Hw Hc He. apply relay_all; auto.
  intros m. repeat constructor; auto.
Qed.

(** The handler of [gemini/stream.js] on a usable upstream response. *)
Lemma streamjs_stream_route env req s up b :
  method req = "POST"%string ->
  validPrompt (prompt req) = Some s ->
  apiKey env <> [] ->
  (Z.of_nat (length s) <= 200000)%Z ->
  fetchResult env = Ok up -> ok up = true -> body up = Some b ->
  StreamJs.handler env req
  = cors
    ++ [Fetch StreamGenerateContent (StreamJs.defaultModel (model req)) s]
    ++ StreamJs.stream env b.
Proof.
  intros Hm Hprompt Hkey Hshort Hfetch Hok Hbody.
  unfold StreamJs.handler. rewrite Hm.
  change (String.eqb "POST" "OPTIONS") with false.
  change (String.eqb "POST" "POST") with true.
  cbv beta iota. cbn [negb].
  rewrite (isEmpty_false _ Hkey), Hprompt.
  rewrite (tooLong_false StreamJs.maxChars s) by exact Hshort.
  now rewrite Hfetch, Hok, Hbody.
Qed.

(** End to end: when the upstream answers with a usable body that
    delivers chunks and ends, both handlers of the stream route write,
    after their opening, one data event per fragment of the lines of the
    whole upstream text, in order, then the [done] pair, and end; how the
    text was cut into chunks leaves no trace. *)
Theorem stream_relays_the_fragments_of_the_text
    env st req (s : list N) up b (chunks : list (list N))
    (Hpost : method req = "POST"%string)
    (Hprompt : validPrompt (prompt req) = Some s)
    (Hkey : apiKey env <> [])
    (Hshort : (Z.of_nat (length s) <= 200000)%Z)
    (Hfetch : fetchResult env = Ok up)
    (Hok : ok up = true)
    (Hbody : body up = Some b)
    (Hshape : shapeOf b <> UnknownShape)
    (Hevents : events env = map Chunk chunks ++ [EndOfStream]) :
  StreamJs.handler env req
  = cors
    ++ [Fetch StreamGenerateContent (StreamJs.defaultModel (model req)) s]
    ++ sseHeaders (hasFlushHeaders env) ++ [SetInterval]
    ++ map dataEvent
         (flat_map Pipeline.handleLine (Pipeline.lines (concat chunks)))
    ++ flushDone /\
  (subpath req = "stream"%string ->
   fst (Limiter.geminiRateLimiter (now env) st) = true ->
   fst (GeminiJs.handler env st req)
   = cors ++ GeminiJs.opening env req s
     ++ map dataEvent
          (flat_map Pipeline.handleLine (Pipeline.lines (concat chunks)))
     ++ flushDone).
Proof.
  split.
  - rewrite (streamjs_stream_route env req s up b) by assumption.
    unfold StreamJs.stream. rewrite Hevents.
    destruct (shapeOf b); try (now destruct Hshape);
      now rewrite relay_whole_stream, <- !app_assoc.
  - intros Hpath Hadm.
    rewrite (gemini_post_routes env st req Hpost Hadm), Hpath.
    change (String.eqb "stream" EmptyString) with false.
    change (String.eqb "stream" "silent") with false.
    change (String.eqb "stream" "stream") with true.
    cbv iota. f_equal.
    rewrite (gemini_stream_route env req s up b) by assumption.
    rewrite Hevents.
    destruct (shapeOf b); try (now destruct Hshape);
      now rewrite relay_whole_stream.
Qed.

Lemma pings_none (test : Effect -> bool) n :
  test ping = false -> count test (GeminiJs.pings n) = 0.
Proof.
  intros H. apply count_none. unfold GeminiJs.pings.
  induction n; simpl; constructor; auto.
Qed.

Lemma gemini_relay_none (test : Effect -> bool) shape s evs :
  (forall w, test (Write w) = false) ->
  test ClearInterval = false -> test End = false ->
  count test (relay GeminiJs.onStreamError shape s evs) = 0.
Proof.
  intros Hw Hc He. apply count_none.
  now apply (gemini_relay_all (fun e => test e = false)).
Qed.

Lemma streamjs_relay_none (test : Effect -> bool) shape s evs :
  (forall w, test (Write w) = false) ->
  test ClearInterval = false -> test End = false ->
  count test (relay StreamJs.onStreamError shape s evs) = 0.
Proof.
  intros Hw Hc He. apply count_none.
  now apply (streamjs_relay_all (fun e => test e = false)).
Qed.

Lemma pings_all (P : Effect -> Prop) n : P ping -> Forall P (GeminiJs.pings n).
Proof.
  intros H. unfold GeminiJs.pings. induction n; simpl; constructor; auto.
Qed.

Ltac innermost x :=
  lazymatch x with
  | context [match _ with _ => _ end] => fail
  | _ => idtac
  end.

Ltac split_cases :=
  unfold cors, sseHeaders;
  repeat match goal with
         | |- context [if ?b then _ else _] =>
             innermost b; destruct b eqn:?; cbv beta iota zeta
         | |- context [match ?x with _ => _ end] =>
             innermost x; destruct x eqn:?; cbv beta iota zeta
         end.

Lemma count_cons (test : Effect -> bool) e trace :
  count test (e :: trace) = (if test e then 1 else 0) + count test trace.
Proof. unfold count. simpl. now destruct (test e). Qed.

Ltac count_trace :=
  cbn [fst snd]; unfold cors, sseHeaders;
  repeat first [rewrite count_app | rewrite count_cons];
  repeat rewrite gemini_relay_none by (try intros; reflexivity);
  repeat rewrite streamjs_relay_none by (try intros; reflexivity);
  repeat rewrite pings_none by reflexivity;
  cbn; try lia.

Ltac open_handlers :=
  unfold GeminiJs.handler, GeminiJs.limitRoute, GeminiJs.completionRoute,
    GeminiJs.silentRoute, GeminiJs.streamRoute, GeminiJs.streamSilentRoute,
    GeminiJs.generateContent, GeminiJs.streamGenerateContent,
    GeminiJs.catchStream, StreamJs.handler, StreamJs.stream, IndexJs.handler,
    SilentJs.handler, StreamSilentJs.handler.

(** No retry: no handler calls the upstream more than once for one
    request, whatever the upstream answers and whatever happens on the
    stream. *)
Theorem at_most_one_upstream_call env st req :
  count isFetch (fst (GeminiJs.handler env st req)) <= 1 /\
  count isFetch (StreamJs.handler env req) <= 1 /\
  count isFetch (IndexJs.handler env req) <= 1 /\
  count isFetch (SilentJs.handler env req) <= 1 /\
  count isFetch (StreamSilentJs.handler env req) <= 1.
Proof.
  repeat split; open_handlers; split_cases; count_trace.
Qed.

Ltac bad_request Hbad :=
  destruct Hbad as [Hbad|[Hbad|Hbad]];
  [ apply String.eqb_neq in Hbad; rewrite Hbad
  | rewrite Hbad
  | rewrite Hbad ];
  cbn [negb Pipeline.isEmpty]; cbv beta iota;
  split_cases; count_trace; try reflexivity; try discriminate.

(** No call without a valid request: a request that is not a [POST],
    that finds no API key configured, or whose prompt is not a non-empty
    string makes no handler call the upstream. *)
Theorem no_upstream_call_on_a_bad_request env st req
    (Hbad : method req <> "POST"%string \/ apiKey env = []
            \/ validPrompt (prompt req) = None) :
  count isFetch (fst (GeminiJs.handler env st req)) = 0 /\
  count isFetch (StreamJs.handler env req) = 0 /\
  count isFetch (IndexJs.handler env req) = 0 /\
  count isFetch (SilentJs.handler env req) = 0 /\
  count isFetch (StreamSilentJs.handler env req) = 0.
Proof.
  repeat split; open_handlers; bad_request Hbad.
Qed.

(** The length guard: a prompt of more than 200000 characters is never
    sent to the upstream by the routed handler, by the stream handler, by
    the completion handler nor by the silent stream handler.  The handler
    of [gemini/silent.js] has no such guard and sends it. *)
Theorem long_prompt_is_sent_by_silent_only env st req (s : list N)
    (Hprompt : validPrompt (prompt req) = Some s)
    (Hlong : (200000 < Z.of_nat (length s))%Z) :
  count isFetch (fst (GeminiJs.handler env st req)) = 0 /\
  count isFetch (StreamJs.handler env req) = 0 /\
  count isFetch (IndexJs.handler env req) = 0 /\
  count isFetch (StreamSilentJs.handler env req) = 0 /\
  (method req = "POST"%string -> apiKey env <> [] ->
   count isFetch (SilentJs.handler env req) = 1).
Proof.
  pose proof (tooLong_true GeminiJs.maxChars s Hlong) as H1.
  pose proof (tooLong_true StreamJs.maxChars s Hlong) as H2.
  pose proof (tooLong_true IndexJs.maxChars s Hlong) as H3.
  pose proof (tooLong_true StreamSilentJs.maxChars s Hlong) as H4.
  repeat split; open_handlers; rewrite ?Hprompt, ?H1, ?H2, ?H3, ?H4;
    cbv beta iota.
  - split_cases; count_trace; try reflexivity; try discriminate.
  - split_cases; count_trace; try reflexivity; try discriminate.
  - split_cases; count_trace; try reflexivity; try discriminate.
  - split_cases; count_trace; try reflexivity; try discriminate.
  - intros Hm Hkey. rewrite Hm, (isEmpty_false _ Hkey).
    change (String.eqb "POST" "OPTIONS") with false.
    change (String.eqb "POST" "POST") with true.
    cbv beta iota. cbn [negb].
    now destruct (fetchResult env).
Qed.

Ltac status_ok :=
  simpl; first [exact I | repeat first [left; reflexivity | right]].

Ltac forall_trace :=
  cbn [fst snd];
  repeat first
    [ apply Forall_nil
    | apply Forall_app; split
    | apply Forall_cons; [status_ok|]
    | apply gemini_relay_all; [intros; exact I | exact I | exact I]
    | apply pings_all; exact I ].

(** The status of the upstream never reaches the caller of the routed
    handler: whatever the upstream answers, the statuses it sets are
    among 200, 204, 400, 404, 405, 429, 500 and 502. *)
Theorem routed_handler_sets_its_own_statuses env st req :
  Forall (statusIn [200; 204; 400; 404; 405; 429; 500; 502]%Z)
    (fst (GeminiJs.handler env st req)).
Proof.
  open_handlers; split_cases; forall_trace.
Qed.

Ltac answers_trace :=
  unfold answers; count_trace; try reflexivity.

(** One answer per request: the completion handler and the handler of
    [gemini/silent.js] complete the response exactly once on every
    request, and so does the routed handler on every route but the two
    stream routes. *)
Theorem every_request_is_answered_once env st req :
  answers (IndexJs.handler env req) = 1 /\
  answers (SilentJs.handler env req) = 1 /\
  (subpath req <> "stream"%string -> subpath req <> "stream/silent"%string ->
   answers (fst (GeminiJs.handler env st req)) = 1).
Proof.
  split; [|split].
  - open_handlers; split_cases; answers_trace.
  - open_handlers; split_cases; answers_trace.
  - intros H1 H2. apply String.eqb_neq in H1, H2.
    unfold GeminiJs.handler. rewrite H1, H2.
    unfold GeminiJs.limitRoute, GeminiJs.completionRoute,
      GeminiJs.silentRoute, GeminiJs.generateContent.
    split_cases; answers_trace.
Qed.

(** The silent handlers send no body: the handler of
    [gemini/silent.js], the silent stream handler and the [silent] route
    of the routed handler never call [res.json] nor [res.write], and the
    silent stream handler completes the response at most once. *)
Theorem silent_handlers_send_no_body env req :
  count isJson (SilentJs.handler env req) = 0 /\
  count isWrite (SilentJs.handler env req) = 0 /\
  count isJson (StreamSilentJs.handler env req) = 0 /\
  count isWrite (StreamSilentJs.handler env req) = 0 /\
  answers (StreamSilentJs.handler env req) <= 1 /\
  count isJson (GeminiJs.silentRoute env req) = 0 /\
  count isWrite (GeminiJs.silentRoute env req) = 0.
Proof.
  repeat split; open_handlers; split_cases; answers_trace.
Qed.

(** Every [POST] is counted, and nothing else is: on a [POST] the
    limiter variables after the exchange are those [geminiRateLimiter]
    leaves, whatever the route, the prompt and the upstream, so a request
    answered 400 or 404 uses up a slot; any other request leaves the list
    of timestamps as it is or, on the [limit] route, pruned. *)
Theorem every_post_is_counted env st req :
  (method req = "POST"%string ->
   snd (GeminiJs.handler env st req)
   = snd (Limiter.geminiRateLimiter (now env) st)) /\
  (method req <> "POST"%string ->
   Limiter.requestTimes (snd (GeminiJs.handler env st req))
   = Limiter.requestTimes st \/
   Limiter.requestTimes (snd (GeminiJs.handler env st req))
   = Limiter.prune (now env) (Limiter.requestTimes st)).
Proof.
  split.
  - intros Hm. unfold GeminiJs.handler. rewrite Hm.
    change (String.eqb "POST" "OPTIONS") with false.
    change (String.eqb "POST" "GET") with false.
    change (String.eqb "POST" "POST") with true.
    cbv beta iota. cbn [andb negb].
    destruct (Limiter.geminiRateLimiter (now env) st) as [admitted st'].
    cbn [snd]. now split_cases.
  - intros Hm. apply String.eqb_neq in Hm.
    unfold GeminiJs.handler, GeminiJs.limitRoute, Limiter.limitStatus.
    rewrite Hm. cbn [negb]. cbv beta iota zeta.
    destruct (String.eqb (method req) "OPTIONS"); [now left|].
    destruct (String.eqb (method req) "GET" && String.eqb (subpath req) "limit");
      [now right|now left].
Qed.

End WithBuiltins.

Lemma no_upstream_call_on_a_bad_request_witness :
  count isFetch
    (StreamJs.handler (builtins := Examples.runtime)
       (Examples.world (Throws JUndefined) [])
       {| method := "POST"; subpath := "stream"; prompt := JNumber 42%float;
          model := JUndefined |}) = 0.
Proof.
  refine (proj1 (proj2 (@no_upstream_call_on_a_bad_request Examples.runtime
                          (Examples.world (Throws JUndefined) [])
                          Limiter.initial
                          {| method := "POST"; subpath := "stream";
                             prompt := JNumber 42%float;
                             model := JUndefined |} _))).
  right. right. reflexivity.
Defined.

Lemma every_request_is_answered_once_witness :
  answers
    (fst (GeminiJs.handler (builtins := Examples.runtime)
            (Examples.world (Throws JUndefined) []) Limiter.initial
            (Examples.post "nowhere" (lit "hello")))) = 1.
Proof.
  refine (proj2 (proj2 (@every_request_is_answered_once Examples.runtime
                          (Examples.world (Throws JUndefined) [])
                          Limiter.initial
                          (Examples.post "nowhere" (lit "hello")))) _ _);
    discriminate.
Defined.

Lemma every_post_is_counted_witness :
  Limiter.requestTimes
    (snd (GeminiJs.handler (builtins := Examples.runtime)
            (Examples.world (Throws JUndefined) []) Limiter.initial
            (Examples.post "nowhere" (lit "hello")))) = [0%Z].
Proof.
  rewrite (proj1 (@every_post_is_counted Examples.runtime
                    (Examples.world (Throws JUndefined) [])
                    Limiter.initial
                    (Examples.post "nowhere" (lit "hello"))) eq_refl).
  reflexivity.
Defined.

Lemma long_prompt_is_sent_by_silent_only_witness :
  count isFetch
    (SilentJs.handler
       (Examples.world (Throws JUndefined) [])
       (Examples.post "silent" Examples.longPrompt)) = 1.
Proof.
  refine (proj2 (proj2 (proj2 (proj2
            (@long_prompt_is_sent_by_silent_only Examples.runtime
               (Examples.world (Throws JUndefined) []) Limiter.initial
               (Examples.post "silent" Examples.longPrompt)
               Examples.longPrompt eq_refl longPrompt_length)))) eq_refl _).
  discriminate.
Defined.

Lemma stream_relays_the_fragments_of_the_text_witness :
  StreamJs.handler (builtins := Examples.runtime)
    (Examples.world (Ok (Examples.respond 200 (Some Examples.readerBody)))
       (map Chunk Examples.twoFramesCut ++ [EndOfStream]))
    (Examples.post "stream" (lit "hello"))
  = cors
    ++ [Fetch StreamGenerateContent (str "gemini-1.5-flash") (lit "hello")]
    ++ sseHeaders true
    ++ [ SetInterval;
         dataEvent (builtins := Examples.runtime) (lit "a");
         dataEvent (builtins := Examples.runtime) (lit "b") ]
    ++ flushDone.
Proof.
  refine (eq_trans
            (proj1 (@stream_relays_the_fragments_of_the_text Examples.runtime
                      (Examples.world
                         (Ok (Examples.respond 200 (Some Examples.readerBody)))
                         (map Chunk Examples.twoFramesCut ++ [EndOfStream]))
                      Limiter.initial
                      (Examples.post "stream" (lit "hello")) (lit "hello")
                      (Examples.respond 200 (Some Examples.readerBody))
                      Examples.readerBody Examples.twoFramesCut
                      eq_refl eq_refl _ _ eq_refl eq_refl eq_refl _ eq_refl)) _).
  - discriminate.
  - vm_compute. discriminate.
  - discriminate.
  - reflexivity.
Defined.

End HandlerMore.
